(** * go-drupal: the drush message classifier, the drush runner, the typed
    settings accessors and the database connection string.

    The development follows the Go sources:
    - [drush.go], revision with [DrushMessageSet] (lines 338-546), revision
      with [DrushMessages] and the [success] marker (lines 108-337), and the
      command line and the loops of the first revision (lines 1-107);
    - [settings.go] (lines 1-97);
    - the file that defines [Site], [Database] and [Status] (the fetching
      methods of [Site] and method [Open] of [Database]).

    Go strings are byte strings: [string] of the Standard Library, one
    [ascii] per byte. *)

From Stdlib Require Import Ascii NArith ZArith Lia Bool.
From Stdlib Require String.
From stdpp Require Import base list strings gmap pretty.

(** ** Package [strings] of the Go standard library *)

Module strings.

(** [len(s)] *)
Definition len (s : string) : nat := String.length s.

(** [strings.HasPrefix]:
    [len(s) >= len(prefix) && s[:len(prefix)] == prefix] *)
Definition HasPrefix (s prefix : string) : bool :=
  (len prefix <=? len s)%nat && String.eqb (String.substring 0 (len prefix) s) prefix.

(** [strings.TrimPrefix] *)
Definition TrimPrefix (s prefix : string) : string :=
  if HasPrefix s prefix then String.substring (len prefix) (len s - len prefix) s else s.

(** [strings.HasSuffix]:
    [len(s) >= len(suffix) && s[len(s)-len(suffix):] == suffix] *)
Definition HasSuffix (s suffix : string) : bool :=
  (len suffix <=? len s)%nat
  && String.eqb (String.substring (len s - len suffix) (len suffix) s) suffix.

(** [strings.TrimSuffix]:
    [if HasSuffix(s, suffix) { return s[:len(s)-len(suffix)] }; return s] *)
Definition TrimSuffix (s suffix : string) : string :=
  if HasSuffix s suffix then String.substring 0 (len s - len suffix) s else s.

(** UTF-8 encoding of a code point below U+10000 (all [unicode.IsSpace] code
    points are). *)
Definition byte_of (n : N) : ascii := ascii_of_N n.

Definition utf8 (r : N) : string :=
  if (r <? 128)%N then String (byte_of r) ""
  else if (r <? 2048)%N then
    String (byte_of (192 + r / 64)) (String (byte_of (128 + r mod 64)) "")
  else
    String (byte_of (224 + r / 4096))
      (String (byte_of (128 + (r / 64) mod 64))
         (String (byte_of (128 + r mod 64)) "")).

(** The code points for which [unicode.IsSpace] holds: tab, line feed,
    vertical tab, form feed, carriage return, space, U+0085, U+00A0, and the
    rest of the White_Space property: U+1680, U+2000..U+200A, U+2028, U+2029,
    U+202F, U+205F, U+3000. *)
Definition unicodeSpace : list N :=
  [ 9; 10; 11; 12; 13; 32; 133; 160; 5760;
    8192; 8193; 8194; 8195; 8196; 8197; 8198; 8199; 8200; 8201; 8202;
    8232; 8233; 8239; 8287; 12288 ]%N.

Definition spaceRunes : list string := Eval cbv in map utf8 unicodeSpace.

(** One white space rune removed from the front, when [s] starts with one.
    [utf8.DecodeRuneInString] yields a white space rune exactly on the strings
    that start with the UTF-8 encoding of one; an invalid byte decodes to
    U+FFFD, which is not white space. *)
Fixpoint cutSpaceLeft_in (runes : list string) (s : string) : option string :=
  match runes with
  | [] => None
  | e :: rest =>
      if HasPrefix s e then Some (TrimPrefix s e) else cutSpaceLeft_in rest s
  end.

Definition cutSpaceLeft : string -> option string := cutSpaceLeft_in spaceRunes.

(** One white space rune removed from the end, when [s] ends with one
    ([utf8.DecodeLastRuneInString]). *)
Fixpoint cutSpaceRight_in (runes : list string) (s : string) : option string :=
  match runes with
  | [] => None
  | e :: rest =>
      if HasSuffix s e then Some (TrimSuffix s e) else cutSpaceRight_in rest s
  end.

Definition cutSpaceRight : string -> option string := cutSpaceRight_in spaceRunes.

(** [strings.TrimLeftFunc(s, unicode.IsSpace)]; the loop runs at most [len(s)]
    times, which is the fuel. *)
Fixpoint trimLeft (fuel : nat) (s : string) : string :=
  match fuel with
  | O => s
  | S fuel' =>
      match cutSpaceLeft s with
      | Some s' => trimLeft fuel' s'
      | None => s
      end
  end.

(** [strings.TrimRightFunc(s, unicode.IsSpace)] *)
Fixpoint trimRight (fuel : nat) (s : string) : string :=
  match fuel with
  | O => s
  | S fuel' =>
      match cutSpaceRight s with
      | Some s' => trimRight fuel' s'
      | None => s
      end
  end.

Definition TrimLeftSpace (s : string) : string := trimLeft (len s) s.
Definition TrimRightSpace (s : string) : string := trimRight (len s) s.

(** [strings.TrimSpace]: all leading and trailing white space removed, as
    defined by Unicode; leading first, then trailing. *)
Definition TrimSpace (s : string) : string := TrimRightSpace (TrimLeftSpace s).

End strings.

(** a run of white space runes *)
Inductive spaces : string -> Prop :=
| spaces_nil : spaces ""
| spaces_cons (e s : string) : e ∈ strings.spaceRunes -> spaces s -> spaces (e +:+ s).

(** ** Go slices

    A slice is [nil] or holds a sequence; [len] and [range] treat the two
    alike, [== nil] does not. *)

Module slice.

Definition t (A : Type) : Type := option (list A).

Definition nil {A : Type} : t A := None.

(** The elements [range] visits, in order. *)
Definition elems {A : Type} (s : t A) : list A :=
  match s with
  | None => []
  | Some l => l
  end.

Definition len {A : Type} (s : t A) : nat := length (elems s).

(** The builtin [append(s, x)]: the result is never [nil]. *)
Definition append {A : Type} (s : t A) (x : A) : t A := Some (elems s ++ [x]).

Definition is_nil {A : Type} (s : t A) : bool :=
  match s with
  | None => true
  | Some _ => false
  end.

End slice.

(** ** [drush.go]: messages and message sets *)

(** [type DrushMessageType string] *)
Definition DrushMessageType : Type := string.

(** [func (det DrushMessageType) String() string] *)
Definition DrushMessageType_String (det : DrushMessageType) : string := det.

Definition DrushMessageError : DrushMessageType := "[error]".
Definition DrushMessageWarning : DrushMessageType := "[warning]".
Definition DrushMessageNotice : DrushMessageType := "[notice]".
Definition DrushMessageOK : DrushMessageType := "[ok]".
Definition DrushMessageSuccess : DrushMessageType := "[success]".
Definition DrushMessageUnknown : DrushMessageType := "[unknown]".

(** [type DrushMessage struct { Message string; Type DrushMessageType }] *)
Record DrushMessage : Type := mkDrushMessage {
  Message : string;
  Type_ : DrushMessageType
}.

(** [func (de DrushMessage) Error() string] *)
Definition DrushMessage_Error (de : DrushMessage) : string :=
  DrushMessageType_String (Type_ de) +:+ ": " +:+ Message de.

(** [type DrushMessageSet []DrushMessage] (lines 338-546), named
    [DrushMessages] in the revision of lines 108-337; the four predicates are
    the same in both. *)
Definition DrushMessageSet : Type := slice.t DrushMessage.
Definition DrushMessages : Type := DrushMessageSet.

(** [for _, DrushMessage := range des { if DrushMessage.Type == t { return true } }
    return false] *)
Fixpoint rangeHasType (t : DrushMessageType) (des : list DrushMessage) : bool :=
  match des with
  | [] => false
  | m :: rest => if String.eqb (Type_ m) t then true else rangeHasType t rest
  end.

Definition HasErrors (des : DrushMessageSet) : bool :=
  if slice.is_nil des then false else rangeHasType DrushMessageError (slice.elems des).

Definition HasWarnings (des : DrushMessageSet) : bool :=
  if slice.is_nil des then false else rangeHasType DrushMessageWarning (slice.elems des).

Definition HasNotices (des : DrushMessageSet) : bool :=
  if slice.is_nil des then false else rangeHasType DrushMessageNotice (slice.elems des).

Definition HasUnknowns (des : DrushMessageSet) : bool :=
  if slice.is_nil des then false else rangeHasType DrushMessageUnknown (slice.elems des).

(** Go's [error] interface values that [Run] returns: an error of package
    [os/exec], or a message set stored in the interface. [None] is the [nil]
    interface. *)
Inductive error : Type :=
| ExecError (text : string)
| SetError (set : DrushMessageSet).

(** What package [os/exec] does for [d.cmd]: the errors of
    [StderrPipe], [StdoutPipe], [Start] and [Wait] ([None] is [nil], the text
    is [err.Error()]), the bytes written to standard output and the lines
    [scanner.Text()] yields from standard error. *)
Record Cmd : Type := mkCmd {
  StderrPipe : option string;
  StdoutPipe : option string;
  Start : option string;
  stdout : string;
  stderr : list string;
  Wait : option string
}.

Definition started (c : Cmd) : Prop :=
  StderrPipe c = None /\ StdoutPipe c = None /\ Start c = None.

(** *** The two goroutines of [Run]

    The goroutine that drains standard error appends to [messages] and to
    [errset] (lines 388-393; 176-181 in the other revision); the main
    goroutine appends the message of [cmd.Wait]'s error to [errset]
    (lines 405-408; 193-196) before it calls [wg.Wait()] (line 409; 197).
    Nothing orders that append against the appends of the stderr goroutine.
    Each iteration of the scanner loop and the statement after [cmd.Wait] are
    taken as one step each; [step] interleaves them, and [drain] runs them
    under the schedule [k]: the number of stderr lines the goroutine has
    handled when the main goroutine appends ([k >= len(stderr)]: the goroutine
    finishes first). The stdout goroutine owns [outbuf] alone;
    [d.buildCommand()] only sets [d.cmd]. *)

Section Drain.

(** the classifier and the test that sends a message to [messages] *)
Variable NewDrushMessage : string -> DrushMessage.
Variable isOK : DrushMessage -> bool.

Definition accumulators : Type := (DrushMessageSet * DrushMessageSet)%type.

(** one iteration of [for scanner.Scan() { ... }] *)
Definition scanLine (acc : accumulators) (line : string) : accumulators :=
  let '(messages, errset) := acc in
  let message := NewDrushMessage line in
  if isOK message then (slice.append messages message, errset)
  else (messages, slice.append errset message).

Definition scanLines (acc : accumulators) (lines : list string) : accumulators :=
  fold_left scanLine lines acc.

(** [err = d.cmd.Wait(); if err != nil { errset = append(errset, NewDrushMessage(err.Error())) }] *)
Definition waitCmd (c : Cmd) (acc : accumulators) : accumulators :=
  let '(messages, errset) := acc in
  match Wait c with
  | Some err => (messages, slice.append errset (NewDrushMessage err))
  | None => (messages, errset)
  end.

(** [messages] is the named result, [nil] at first; [errset] starts as the
    empty literal. The result is the two slices at [wg.Wait()]. *)
Definition drain (c : Cmd) (k : nat) : accumulators :=
  let acc := (slice.nil, Some []) in
  let acc := scanLines acc (take k (stderr c)) in
  let acc := waitCmd c acc in
  scanLines acc (drop k (stderr c)).

(** The state of a run after [cmd.Start]: the stderr lines not yet scanned,
    the two slices, and whether the main goroutine is past [cmd.Wait]. *)
Record RunState : Type := mkRunState {
  pending : list string;
  slices : accumulators;
  waited : bool
}.

Definition initial (c : Cmd) : RunState :=
  {| pending := stderr c; slices := (slice.nil, Some []); waited := false |}.

Inductive step (c : Cmd) : RunState -> RunState -> Prop :=
| step_scan (line : string) (rest : list string) (acc : accumulators) (w : bool) :
    step c {| pending := line :: rest; slices := acc; waited := w |}
           {| pending := rest; slices := scanLine acc line; waited := w |}
| step_wait (lines : list string) (acc : accumulators) :
    step c {| pending := lines; slices := acc; waited := false |}
           {| pending := lines; slices := waitCmd c acc; waited := true |}.

(** [wg.Wait()] returns: the scanner is at the end and the main goroutine is
    past [cmd.Wait]. *)
Definition joined (st : RunState) : Prop := pending st = [] /\ waited st = true.

(** the test that sends a message to [errset] *)
Definition notOK (m : DrushMessage) : bool := negb (isOK m).

(** the message of [cmd.Wait]'s error, if there is one *)
Definition waitMessage (c : Cmd) : list DrushMessage :=
  match Wait c with
  | Some err => [NewDrushMessage err]
  | None => []
  end.

End Drain.

Definition RunResult : Type := (string * DrushMessageSet * option error)%type.

Definition output_of (r : RunResult) : string := fst (fst r).
Definition errs_of (r : RunResult) : option error := snd r.

(** *** Revision with [DrushMessageSet] ([drush.go], lines 338-546) *)

Module MessageSet.

Definition NewDrushMessage (messageline : string) : DrushMessage :=
  let mestype :=
    if strings.HasSuffix messageline (DrushMessageType_String DrushMessageError)
    then DrushMessageError
    else if strings.HasSuffix messageline (DrushMessageType_String DrushMessageWarning)
    then DrushMessageWarning
    else if strings.HasSuffix messageline (DrushMessageType_String DrushMessageNotice)
    then DrushMessageWarning
    else if strings.HasSuffix messageline (DrushMessageType_String DrushMessageOK)
    then DrushMessageOK
    else DrushMessageUnknown in
  let messageline := strings.TrimSuffix messageline (DrushMessageType_String mestype) in
  let messageline := strings.TrimSpace messageline in
  {| Message := messageline; Type_ := mestype |}.

(** [message.Type == DrushMessageOK] *)
Definition isOK (message : DrushMessage) : bool := String.eqb (Type_ message) DrushMessageOK.

(** the two slices when [wg.Wait()] returns *)
Definition accumulated (d : Cmd) (k : nat) : accumulators := drain NewDrushMessage isOK d k.

Definition Run (d : Cmd) (k : nat) : RunResult :=
  match StderrPipe d with
  | Some err => ("", slice.nil, Some (ExecError err))
  | None =>
  match StdoutPipe d with
  | Some err => ("", slice.nil, Some (ExecError err))
  | None =>
  match Start d with
  | Some err => ("", slice.nil, Some (ExecError err))
  | None =>
      let '(messages, errset) := accumulated d k in
      let errs := if HasErrors errset then Some (SetError errset) else None in
      (stdout d, messages, errs)
  end end end.

(** [func (des DrushMessageSet) Error() string] *)
Definition Error (des : DrushMessageSet) : string :=
  if slice.is_nil des then ""
  else fold_left (fun output m => output +:+ DrushMessage_Error m +:+ ". ") (slice.elems des) "".

End MessageSet.

(** *** Revision with [DrushMessages] ([drush.go], lines 108-337) *)

Module Messages.

Definition NewDrushMessage (messageline : string) : DrushMessage :=
  let mestype :=
    if strings.HasSuffix messageline (DrushMessageType_String DrushMessageError)
    then DrushMessageError
    else if strings.HasSuffix messageline (DrushMessageType_String DrushMessageWarning)
    then DrushMessageWarning
    else if strings.HasSuffix messageline (DrushMessageType_String DrushMessageNotice)
    then DrushMessageWarning
    else if strings.HasSuffix messageline (DrushMessageType_String DrushMessageOK)
    then DrushMessageOK
    else if strings.HasSuffix messageline (DrushMessageType_String DrushMessageSuccess)
    then DrushMessageSuccess
    else DrushMessageUnknown in
  let messageline := strings.TrimSuffix messageline (DrushMessageType_String mestype) in
  let messageline := strings.TrimSpace messageline in
  {| Message := messageline; Type_ := mestype |}.

(** [message.Type == DrushMessageOK || message.Type == DrushMessageSuccess] *)
Definition isOK (message : DrushMessage) : bool :=
  String.eqb (Type_ message) DrushMessageOK || String.eqb (Type_ message) DrushMessageSuccess.

Definition accumulated (d : Cmd) (k : nat) : accumulators := drain NewDrushMessage isOK d k.

Definition Run (d : Cmd) (k : nat) : RunResult :=
  match StderrPipe d with
  | Some err => ("", slice.nil, Some (ExecError err))
  | None =>
  match StdoutPipe d with
  | Some err => ("", slice.nil, Some (ExecError err))
  | None =>
  match Start d with
  | Some err => ("", slice.nil, Some (ExecError err))
  | None =>
      let '(messages, errset) := accumulated d k in
      let errs :=
        if negb (slice.is_nil errset) && (0 <? slice.len errset)
        then Some (SetError errset) else None in
      (stdout d, messages, errs)
  end end end.

(** [func (des DrushMessages) Error() string] *)
Definition Error (des : DrushMessages) : string :=
  if slice.is_nil des then ""
  else fold_left (fun output m => output +:+ DrushMessage_Error m +:+ " ") (slice.elems des) "".

End Messages.

(** ** [settings.go]: the dynamically typed settings *)

(** The dynamic values an [interface{}] of a settings map holds: what
    [json.Unmarshal] stores ([nil], [bool], [float64], [string],
    [[]interface{}], [map[string]interface{}]) and the two further types the
    accessors assert ([int], [Settings]). A [float64] is carried as its
    IEEE 754 bit pattern; the accessors only pass it on. A map is [nil]
    ([None]) or holds a finite map; indexing treats [nil] as empty. *)
#[warnings="-register-all"]
Inductive value : Type :=
| VNil
| VBool (b : bool)
| VInt (n : Z)
| VFloat64 (bits : Z)
| VString (s : string)
| VSlice (l : list value)
| VMap (m : option (gmap string value))
| VSettings (m : option (gmap string value)).

(** [type Settings map[string]interface{}] *)
Definition Settings : Type := option (gmap string value).

(** [val, ok := s[key]] *)
Definition index (s : Settings) (key : string) : option value :=
  match s with
  | None => None
  | Some m => m !! key
  end.

(** A call returns, or panics at run time. *)
Inductive outcome (A : Type) : Type :=
| Returns (a : A)
| Panics.
Arguments Returns {A} a.
Arguments Panics {A}.

Definition HasValue (s : Settings) (key : string) : bool :=
  match index s key with
  | Some _ => true
  | None => false
  end.

Definition GetString (s : Settings) (key : string) : string :=
  match index s key with
  | None => ""
  | Some val =>
      match val with
      | VString strval => strval
      | _ => ""
      end
  end.

Definition GetInt (s : Settings) (key : string) : Z :=
  match index s key with
  | None => 0%Z
  | Some val =>
      match val with
      | VInt intval => intval
      | _ => 0%Z
      end
  end.

Definition GetBool (s : Settings) (key : string) : bool :=
  match index s key with
  | None => false
  | Some val =>
      match val with
      | VBool boolval => boolval
      | _ => false
      end
  end.

(** the bit pattern of [+0] is [0] *)
Definition GetFloat (s : Settings) (key : string) : Z :=
  match index s key with
  | None => 0%Z
  | Some val =>
      match val with
      | VFloat64 floatval => floatval
      | _ => 0%Z
      end
  end.

Definition GetAssocArray (s : Settings) (key : string) : Settings :=
  match index s key with
  | None => None
  | Some val =>
      match val with
      | VSettings settingsval => settingsval
      | _ => None
      end
  end.

(** [for _, subval := range arrayval { strval, ok := subval.(string);
    if !ok { continue }; array = append(array, strval) }] *)
Fixpoint rangeStrings (array : slice.t string) (arrayval : list value) : slice.t string :=
  match arrayval with
  | [] => array
  | subval :: rest =>
      match subval with
      | VString strval => rangeStrings (slice.append array strval) rest
      | _ => rangeStrings array rest
      end
  end.

(** [arrayval := val.([]interface{})] is the one-result form of the type
    assertion: it panics when [val] holds anything else. *)
Definition GetArray (s : Settings) (key : string) : outcome (slice.t string) :=
  match index s key with
  | None => Returns slice.nil
  | Some val =>
      match val with
      | VSlice arrayval => Returns (rangeStrings (Some []) arrayval)
      | _ => Panics
      end
  end.

(** What [json.Unmarshal] stores into a [Settings] for the document
    [{"hash_salt": "X", "list": ["a","b"]}]: a JSON string as [string], a
    JSON array as [[]interface{}]. *)
Definition decodedSettings : Settings :=
  Some (<["hash_salt" := VString "X"]>
         (<["list" := VSlice [VString "a"; VString "b"]]> ∅)).

(** ** The database connection *)

Record Database : Type := mkDatabase {
  Database_ : string;
  Username : string;
  Password : string;
  Prefix : string;
  Host : string;
  Port : string;
  Namespace : string;
  Driver : string
}.

(** The call [sql.Open(driverName, dataSourceName)] that [Open] ends in. *)
Inductive sqlCall : Type :=
| sql_Open (driverName dataSourceName : string).

(** Method [Open] of [Database], statement by statement on the variable
    [connection]; the driver is [db.Driver]. *)
Definition Open (db : Database) : sqlCall :=
  let connection := Username db in
  let connection :=
    if negb (String.eqb (Password db) "") then connection +:+ (":" +:+ Password db)
    else connection in
  let connection := connection +:+ ("@" +:+ Host db) in
  let connection :=
    if negb (String.eqb (Port db) "") then connection +:+ (":" +:+ Port db)
    else connection in
  let connection := connection +:+ ("/" +:+ Database_ db) in
  sql_Open (Driver db) connection.

(** The data-source string as the specification words it: user name, then
    [":"] and the password only when there is one, then ["@"] and the host,
    then [":"] and the port only when there is one, then ["/"] and the
    database name. *)
Definition dataSourceName_spec (db : Database) : string :=
  Username db
  +:+ (if decide (Password db = "") then "" else ":" +:+ Password db)
  +:+ "@" +:+ Host db
  +:+ (if decide (Port db = "") then "" else ":" +:+ Port db)
  +:+ "/" +:+ Database_ db.

(** ** [drush.go]: the command line *)

(** [type Drush struct { Directory, Command string; Arguments []string; cmd *exec.Cmd }];
    the field [cmd] is what [buildCommand] computes. *)
Record Drush : Type := mkDrush {
  Directory : string;
  Command : string;
  Arguments : list string
}.

(** The call [exec.Command(name, arg...)] with the fields [Dir] and [Env]
    set afterwards. *)
Record execCmd : Type := mkExecCmd {
  name : string;
  arg : list string;
  Dir : string;
  Env : list string
}.

(** [func NewDrush(directory string, command string, arguments ...string) *Drush]
    of lines 128-131 and 356-359 *)
Definition NewDrush (directory command : string) (arguments : list string) : Drush :=
  {| Directory := directory; Command := command; Arguments := arguments |}.

(** [func (d *Drush) buildCommand()]; [environ] is [os.Environ()]. *)
Definition buildCommand (environ : list string) (d : Drush) : execCmd :=
  let global := [Command d; "--yes"; "--nocolor"] in
  let arguments := global ++ Arguments d in
  {| name := "drush"; arg := arguments; Dir := Directory d;
     Env := environ ++ ["DRUSH_COLUMNS=10000"; "COLUMNS=10000"] |}.

(** *** First revision ([drush.go], lines 1-107)

    [NewDrush] builds the command at once; the stderr loop reports lines to
    two [ErrorSet]s of the package [github.com/phayes/errors], kept here as
    the calls [Add(key, errors.New(text))] in their order. *)

Module Keyed.

Definition NewDrush (environ : list string) (directory command : string)
    (arguments : list string) : Drush * execCmd :=
  let drush := {| Directory := directory; Command := command; Arguments := arguments |} in
  let global := [command; "--yes"; "--nocolor"] in
  let arguments := global ++ arguments in
  (drush, {| name := "drush"; arg := arguments; Dir := Directory drush;
             Env := environ ++ ["DRUSH_COLUMNS=10000"; "COLUMNS=10000"] |}).

(** the calls of [Add] on one set: key and text *)
Definition adds : Type := list (string * string).

Record sets : Type := mkSets {
  errset : adds;
  warnset : adds
}.

(** [strconv.Itoa(i)] for the line counter, which is never negative *)
Definition Itoa (i : nat) : string := pretty i.

(** the body of [for scanner.Scan() { i++; line := scanner.Text(); ... }],
    with [i] already incremented: three [if]s in a row on the variable
    [line] *)
Definition scanLine (i : nat) (line : string) (s : sets) : sets :=
  let '(line, s) :=
    if strings.HasSuffix line "[error]" then
      let line := strings.TrimSuffix line "[error]" in
      let line := strings.TrimSpace line in
      (line, {| errset := errset s ++ [(Itoa i, line)]; warnset := warnset s |})
    else (line, s) in
  let '(line, s) :=
    if strings.HasSuffix line "[warning]" then
      let line := strings.TrimSuffix line "[warning]" in
      let line := strings.TrimSpace line in
      (line, {| errset := errset s; warnset := warnset s ++ [(Itoa i, line)] |})
    else (line, s) in
  let '(line, s) :=
    if strings.HasSuffix line "[notice]" then
      let line := strings.TrimSuffix line "[notice]" in
      let line := strings.TrimSpace line in
      (line, {| errset := errset s; warnset := warnset s ++ [(Itoa i, line)] |})
    else (line, s) in
  s.

(** the loop, [i] being the number of lines scanned so far *)
Fixpoint scanLines (i : nat) (lines : list string) (s : sets) : sets :=
  match lines with
  | [] => s
  | line :: rest => let i := S i in scanLines i rest (scanLine i line s)
  end.

Definition stderrLoop (lines : list string) : sets :=
  scanLines 0 lines {| errset := []; warnset := [] |}.

(** [for scanner.Scan() { line := scanner.Text(); output = append(output, strings.TrimSpace(line)) }]
    on the named result [output] *)
Definition stdoutLoop (lines : list string) : slice.t string :=
  fold_left (fun output line => slice.append output (strings.TrimSpace line)) lines slice.nil.

End Keyed.

(** ** The site and what it fetches *)

(** [type Site string]; the other revision of the file has a struct with
    the one field [Directory], whose methods read [s.Directory] where these
    read [s.String()] and for the rest are the same. *)
Definition Site : Type := string.

(** [func (s Site) String() string] *)
Definition Site_String (s : Site) : string := s.

Record Status : Type := mkStatus {
  DrupalVersion : string;
  DrupalSettingsFile : string;
  URI : string;
  DBDriver : string;
  DBHostname : string;
  DBUsername : string;
  DBName : string;
  DBPort : string;
  PHPBin : string;
  PHPOS : string;
  PHPConf : list string;
  DrushScript : string;
  DrushVersion : string;
  DrushTemp : string;
  DrushConf : list string;
  DrushAliasFiles : list string;
  Root : string;
  Site_ : string;
  Modules : string;
  Themes : string;
  ConfigSync : string
}.

(** The errors the fetching methods return: the error of [Run] or of
    [json.Unmarshal] as it is, or [errors.Wraps(err, msg)]. *)
Inductive fetchError : Type :=
| OfRun (e : error)
| OfUnmarshal (text : string)
| Wraps (text : string) (msg : string).

(** the script of [GetSettings] *)
Definition settingsCode (status : Status) : string :=
  "$app_root = '" +:+ Root status +:+ "'; $site_path = '" +:+ Site_ status
  +:+ "'; include_once($app_root.'/'.$site_path.'/settings.php'); print json_encode($settings);".

(** the script of [GetDefaultDatabase] *)
Definition databaseCode (status : Status) : string :=
  "$app_root = '" +:+ Root status +:+ "'; $site_path = '" +:+ Site_ status
  +:+ "'; include_once($app_root.'/'.$site_path.'/settings.php'); print json_encode($databases['default']['default']);".

Section Fetch.

(** [os.Environ()]; what the system does for a [drush] command; the result
    of [exec.Command("php", "-r", phpCode).Output()]; [json.Unmarshal] into
    each of the three types (the error text on the right); the [Run] of the
    revision, with its schedule. *)
Variable environ : list string.
Variable system : execCmd -> Cmd.
Variable php : string -> string + string.
Variable Unmarshal_Status : string -> Status + string.
Variable Unmarshal_Settings : string -> Settings + string.
Variable Unmarshal_Database : string -> Database + string.
Variable Run : Cmd -> nat -> RunResult.

(** [func (s Site) Drush(command string, arguments ...string)] *)
Definition Site_Drush (s : Site) (command : string) (arguments : list string) (k : nat)
    : RunResult :=
  let drush := NewDrush (Site_String s) command arguments in
  Run (system (buildCommand environ drush)) k.

(** [GetStatus]: the status of [drush status --format=json], or the error *)
Definition GetStatus (s : Site) (k : nat) : Status + fetchError :=
  let '(output, _, errs) := Site_Drush s "status" ["--format=json"] k in
  match errs with
  | Some e => inr (OfRun e)
  | None =>
      match Unmarshal_Status output with
      | inr err => inr (OfUnmarshal err)
      | inl status => inl status
      end
  end.

Definition GetSettings (s : Site) (k : nat) : Settings + fetchError :=
  match GetStatus s k with
  | inr err => inr err
  | inl status =>
      let phpCode := settingsCode status in
      match php phpCode with
      | inr err => inr (Wraps err "Error fetching drupal settings")
      | inl out =>
          match Unmarshal_Settings out with
          | inr err => inr (Wraps err "Error fetching drupal settings")
          | inl settings => inl settings
          end
      end
  end.

Definition GetDefaultDatabase (s : Site) (k : nat) : Database + fetchError :=
  match GetStatus s k with
  | inr err => inr err
  | inl status =>
      let phpCode := databaseCode status in
      match php phpCode with
      | inr err => inr (Wraps err "Error fetching drupal database")
      | inl out =>
          match Unmarshal_Database out with
          | inr err => inr (Wraps err "Error fetching drupal database")
          | inl defaultDatabase => inl defaultDatabase
          end
      end
  end.

End Fetch.

(** The values [json.Unmarshal] stores into an [interface{}]: never an
    [int], never a [Settings]. *)
Definition ofJSON (v : value) : Prop :=
  match v with
  | VInt _ | VSettings _ => False
  | _ => True
  end.

(** ** Notions the statements use *)

(** [line] ends in [marker] *)
Definition endsIn (line marker : string) : Prop := exists p, line = p +:+ marker.

(** The markers [NewDrushMessage] of lines 434-452 tests, in its order. *)
Definition recognizedMarkers : list string :=
  [DrushMessageError; DrushMessageWarning; DrushMessageNotice; DrushMessageOK].

(** The statement of C4, word for word: no recognized marker at the end,
    hence type unknown and the trimmed line as text. *)
Definition unrecognized_line_kept (line : string) : Prop :=
  (forall marker, marker ∈ recognizedMarkers -> ~ endsIn line marker) ->
  Type_ (MessageSet.NewDrushMessage line) = DrushMessageUnknown
  /\ Message (MessageSet.NewDrushMessage line) = strings.TrimSpace line.

(** The statement of C2 for a [Run] and its error set: an error is returned
    exactly when the set has a message. *)
Definition error_iff_nonempty
    (Run : Cmd -> nat -> RunResult) (accumulated : Cmd -> nat -> accumulators) : Prop :=
  forall d k, started d ->
    (errs_of (Run d k) <> None <-> 0 < slice.len (snd (accumulated d k))).

(** a run of [drush] with one line of each kind on standard error *)
Definition sampleCmd : Cmd :=
  {| StderrPipe := None; StdoutPipe := None; Start := None;
     stdout := "Drupal version : 8.3.5";
     stderr := ["Cache rebuilt. [ok]"; "Deprecated hook. [warning]";
                "Project views enabled. [success]"; "Bootstrap failed. [error]";
                "PHP Stack trace:"];
     Wait := Some "exit status 1" |}.

(** a run that prints one warning and exits with status 0 *)
Definition warningCmd : Cmd :=
  {| StderrPipe := None; StdoutPipe := None; Start := None;
     stdout := "";
     stderr := ["There are no stable releases for project views. [warning]"];
     Wait := None |}.

(** a failing run: one error line, exit status 1 *)
Definition failingCmd : Cmd :=
  {| StderrPipe := None; StdoutPipe := None; Start := None;
     stdout := "";
     stderr := ["The drush command 'pm-list' could not be executed. [error]"];
     Wait := Some "exit status 1" |}.

(** every marker of either revision *)
Definition allMarkers : list string :=
  [DrushMessageError; DrushMessageWarning; DrushMessageNotice; DrushMessageOK;
   DrushMessageSuccess; DrushMessageUnknown].

(** the loop of the two [Error] methods of the sets, with its separator *)
Definition render (sep : string) (l : list DrushMessage) : string :=
  fold_left (fun output m => output +:+ DrushMessage_Error m +:+ sep) l "".

(** * Properties *)

(** ** Facts about the string functions *)

Section StringFacts.

Lemma app_nil_s (s : string) : "" +:+ s = s.
Proof. reflexivity. Qed.

Lemma app_cons_s (c : ascii) (p s : string) : String c p +:+ s = String c (p +:+ s).
Proof. reflexivity. Qed.

Lemma len_app (p s : string) : strings.len (p +:+ s) = strings.len p + strings.len s.
Proof.
  unfold strings.len. induction p as [|c p IH]; [reflexivity |].
  rewrite app_cons_s. simpl. now rewrite IH.
Qed.

Lemma substring_all (s : string) : String.substring 0 (String.length s) s = s.
Proof. induction s as [|c s IH]; simpl; [reflexivity | now rewrite IH]. Qed.

Lemma substring_app_l (p s : string) :
  String.substring 0 (String.length p) (p +:+ s) = p.
Proof.
  induction p as [|c p IH]; [now destruct s |].
  rewrite app_cons_s. simpl. now rewrite IH.
Qed.

Lemma substring_app_r (p s : string) :
  String.substring (String.length p) (String.length s) (p +:+ s) = s.
Proof.
  induction p as [|c p IH]; [apply substring_all |].
  rewrite app_cons_s. exact IH.
Qed.

Lemma substring_split (n : nat) (s : string) :
  n <= String.length s ->
  s = String.substring 0 n s +:+ String.substring n (String.length s - n) s.
Proof.
  revert s. induction n as [|n IH]; intros s Hn.
  - rewrite Nat.sub_0_r, substring_all. now destruct s.
  - destruct s as [|c s]; simpl in *; [lia |].
    rewrite app_cons_s. f_equal. apply IH. lia.
Qed.

Lemma app_empty_r (s : string) : s +:+ "" = s.
Proof.
  induction s as [|c s IH]; [reflexivity |].
  rewrite app_cons_s. now rewrite IH.
Qed.

Lemma app_assoc_s (a b c : string) : (a +:+ b) +:+ c = a +:+ (b +:+ c).
Proof.
  induction a as [|x a IH]; [reflexivity |].
  rewrite !app_cons_s. now rewrite IH.
Qed.

(** [HasSuffix] holds exactly on the strings that end in [suffix]. *)
Lemma HasSuffix_app (p suffix : string) : strings.HasSuffix (p +:+ suffix) suffix = true.
Proof.
  unfold strings.HasSuffix. rewrite len_app.
  apply andb_true_intro; split.
  - apply Nat.leb_le. lia.
  - replace (strings.len p + strings.len suffix - strings.len suffix) with (String.length p)
      by (unfold strings.len; lia).
    unfold strings.len. rewrite substring_app_r. apply String.eqb_refl.
Qed.

Lemma HasSuffix_inv (s suffix : string) :
  strings.HasSuffix s suffix = true ->
  s = String.substring 0 (strings.len s - strings.len suffix) s +:+ suffix.
Proof.
  unfold strings.HasSuffix. intros H. apply andb_prop in H as [Hle Heq].
  apply Nat.leb_le in Hle. apply String.eqb_eq in Heq.
  unfold strings.len in *.
  pose proof (substring_split (String.length s - String.length suffix) s) as E.
  replace (String.length s - (String.length s - String.length suffix))
    with (String.length suffix) in E by lia.
  rewrite Heq in E. apply E. lia.
Qed.

Lemma HasSuffix_iff (s suffix : string) :
  strings.HasSuffix s suffix = true <-> exists p, s = p +:+ suffix.
Proof.
  split.
  - intros H. eexists. now apply HasSuffix_inv.
  - intros [p ->]. apply HasSuffix_app.
Qed.

Lemma TrimSuffix_app (p suffix : string) : strings.TrimSuffix (p +:+ suffix) suffix = p.
Proof.
  unfold strings.TrimSuffix. rewrite HasSuffix_app, len_app.
  replace (strings.len p + strings.len suffix - strings.len suffix) with (String.length p)
    by (unfold strings.len; lia).
  apply substring_app_l.
Qed.

Lemma TrimSuffix_without (s suffix : string) :
  strings.HasSuffix s suffix = false -> strings.TrimSuffix s suffix = s.
Proof. unfold strings.TrimSuffix. now intros ->. Qed.

End StringFacts.

Example TrimSpace_ascii : strings.TrimSpace "  a b	 " = "a b".
Proof. reflexivity. Qed.

(** U+00A0 in front (bytes 194 160), U+2003 behind (bytes 226 128 131) *)
Example TrimSpace_unicode :
  strings.TrimSpace
    (String "194" (String "160" ("a b" +:+ String "226" (String "128" (String "131" "")))))
  = "a b".
Proof. reflexivity. Qed.

(** ** More on suffixes *)

Lemma substring_skip (p x : string) (n m : nat) :
  String.substring (String.length p + n) m (p +:+ x) = String.substring n m x.
Proof.
  induction p as [|c p IH]; [reflexivity |].
  rewrite app_cons_s. exact IH.
Qed.

(** A suffix no longer than [x] is looked for in [x] alone. *)
Lemma HasSuffix_app_short (p x y : string) :
  strings.len y <= strings.len x ->
  strings.HasSuffix (p +:+ x) y = strings.HasSuffix x y.
Proof.
  intros Hle. unfold strings.HasSuffix. rewrite len_app.
  replace (strings.len p + strings.len x - strings.len y)
    with (String.length p + (strings.len x - strings.len y)) by (unfold strings.len in *; lia).
  rewrite substring_skip.
  f_equal. destruct (Nat.leb_spec (strings.len y) (strings.len x)) as [_|]; [| lia].
  apply Nat.leb_le. lia.
Qed.

Lemma HasSuffix_tail (s y1 y2 : string) :
  strings.HasSuffix s (y1 +:+ y2) = true -> strings.HasSuffix s y2 = true.
Proof.
  intros H. apply HasSuffix_iff in H as [q ->].
  rewrite <- app_assoc_s. apply HasSuffix_app.
Qed.

(** A longer suffix [y1 +:+ y2] whose tail [y2] is not a suffix of [x]. *)
Lemma HasSuffix_app_long (p x y1 y2 : string) :
  strings.len y2 <= strings.len x ->
  strings.HasSuffix x y2 = false ->
  strings.HasSuffix (p +:+ x) (y1 +:+ y2) = false.
Proof.
  intros Hle Hx.
  destruct (strings.HasSuffix (p +:+ x) (y1 +:+ y2)) eqn:E; [| reflexivity].
  apply HasSuffix_tail in E. rewrite HasSuffix_app_short in E by exact Hle. congruence.
Qed.

(** The slice expression of [TrimSuffix] is only evaluated in range. *)
Lemma HasSuffix_in_range (s suffix : string) :
  strings.HasSuffix s suffix = true -> strings.len suffix <= strings.len s.
Proof.
  unfold strings.HasSuffix. intros H. apply andb_prop in H as [H _]. now apply Nat.leb_le.
Qed.

(** ** The classifier *)



Lemma endsIn_HasSuffix (line marker : string) :
  endsIn line marker <-> strings.HasSuffix line marker = true.
Proof. unfold endsIn. symmetry. apply HasSuffix_iff. Qed.

Lemma not_endsIn_HasSuffix (line marker : string) :
  ~ endsIn line marker <-> strings.HasSuffix line marker = false.
Proof. rewrite endsIn_HasSuffix. now destruct (strings.HasSuffix line marker). Qed.

Section ClassifierCases.

Variable p : string.

Lemma NewDrushMessage_error_line :
  MessageSet.NewDrushMessage (p +:+ "[error]")
  = {| Message := strings.TrimSpace p; Type_ := DrushMessageError |}.
Proof.
  unfold MessageSet.NewDrushMessage, DrushMessageType_String, DrushMessageError.
  now rewrite HasSuffix_app, TrimSuffix_app.
Qed.

Lemma NewDrushMessage_warning_line :
  MessageSet.NewDrushMessage (p +:+ "[warning]")
  = {| Message := strings.TrimSpace p; Type_ := DrushMessageWarning |}.
Proof.
  unfold MessageSet.NewDrushMessage, DrushMessageType_String,
    DrushMessageError, DrushMessageWarning.
  rewrite (HasSuffix_app_short p "[warning]" "[error]") by (vm_compute; lia).
  replace (strings.HasSuffix "[warning]" "[error]") with false by reflexivity.
  now rewrite HasSuffix_app, TrimSuffix_app.
Qed.

Lemma NewDrushMessage_ok_line :
  MessageSet.NewDrushMessage (p +:+ "[ok]")
  = {| Message := strings.TrimSpace p; Type_ := DrushMessageOK |}.
Proof.
  unfold MessageSet.NewDrushMessage, DrushMessageType_String,
    DrushMessageError, DrushMessageWarning, DrushMessageNotice, DrushMessageOK.
  assert (E : strings.HasSuffix (p +:+ "[ok]") "[error]" = false)
    by (apply (HasSuffix_app_long p "[ok]" "[er" "ror]"); vm_compute; (lia || reflexivity)).
  assert (W : strings.HasSuffix (p +:+ "[ok]") "[warning]" = false)
    by (apply (HasSuffix_app_long p "[ok]" "[warn" "ing]"); vm_compute; (lia || reflexivity)).
  assert (N : strings.HasSuffix (p +:+ "[ok]") "[notice]" = false)
    by (apply (HasSuffix_app_long p "[ok]" "[not" "ice]"); vm_compute; (lia || reflexivity)).
  rewrite E, W, N.
  now rewrite HasSuffix_app, TrimSuffix_app.
Qed.

(** A line that ends in [[notice]] gets the type [[warning]], and it is
    [[warning]] that [TrimSuffix] then looks for: the line keeps its
    marker. *)
Lemma NewDrushMessage_notice_line :
  MessageSet.NewDrushMessage (p +:+ "[notice]")
  = {| Message := strings.TrimSpace (p +:+ "[notice]"); Type_ := DrushMessageWarning |}.
Proof.
  unfold MessageSet.NewDrushMessage, DrushMessageType_String,
    DrushMessageError, DrushMessageWarning, DrushMessageNotice.
  rewrite (HasSuffix_app_short p "[notice]" "[error]") by (vm_compute; lia).
  replace (strings.HasSuffix "[notice]" "[error]") with false by reflexivity.
  assert (W : strings.HasSuffix (p +:+ "[notice]") "[warning]" = false).
  { apply (HasSuffix_app_long p "[notice]" "[" "warning]"); vm_compute; (lia || reflexivity). }
  rewrite W, HasSuffix_app. cbn zeta.
  now rewrite (TrimSuffix_without _ _ W).
Qed.

End ClassifierCases.

(** C1. A line that ends in the marker [[notice]] is classified as a
    warning, and its text is stored with the marker still in place: after the
    type has been set to [[warning]], [TrimSuffix] looks for [[warning]] and
    finds nothing to remove. The lines that end in [[error]], [[warning]] and
    [[ok]] lose their marker ([NewDrushMessage_error_line],
    [NewDrushMessage_warning_line], [NewDrushMessage_ok_line]). Both
    revisions of the classifier behave so. *)
Theorem NewDrushMessage_notice_keeps_marker :
  MessageSet.NewDrushMessage "Cache rebuilt [notice]"
  = {| Message := "Cache rebuilt [notice]"; Type_ := DrushMessageWarning |}
  /\ Messages.NewDrushMessage "Cache rebuilt [notice]"
     = {| Message := "Cache rebuilt [notice]"; Type_ := DrushMessageWarning |}
  /\ endsIn "Cache rebuilt [notice]" DrushMessageNotice
  /\ Message (MessageSet.NewDrushMessage "Cache rebuilt [notice]")
     <> strings.TrimSpace "Cache rebuilt".
Proof.
  split; [reflexivity |]. split; [reflexivity |]. split.
  - exists "Cache rebuilt ". reflexivity.
  - vm_compute. discriminate.
Qed.


Ltac no_marker :=
  let marker := fresh "marker" in
  let H := fresh "H" in
  intros marker H; apply not_endsIn_HasSuffix;
  unfold recognizedMarkers in H;
  repeat (apply elem_of_cons in H as [-> | H]; [vm_compute; reflexivity |]);
  now apply elem_of_nil in H.

(** C4, as stated, fails on a line that ends in the literal [[unknown]]:
    that is the string of the unknown type, and [TrimSuffix] removes it. *)
Lemma unrecognized_line_kept_fails : ~ (forall line, unrecognized_line_kept line).
Proof.
  intros H. specialize (H "Cache rebuilt [unknown]").
  destruct H as [_ H]; [no_marker |].
  vm_compute in H. discriminate.
Qed.

(** C4, amended. A line that ends in none of [[error]], [[warning]],
    [[notice]], [[ok]] gets the unknown type; its text is the line without a
    final [[unknown]], if it has one, trimmed of leading and trailing white
    space; so it is the trimmed line when the line does not end in
    [[unknown]]. *)
Theorem NewDrushMessage_unrecognized (line : string) :
  (forall marker, marker ∈ recognizedMarkers -> ~ endsIn line marker) ->
  Type_ (MessageSet.NewDrushMessage line) = DrushMessageUnknown
  /\ Message (MessageSet.NewDrushMessage line)
     = strings.TrimSpace (strings.TrimSuffix line "[unknown]")
  /\ (~ endsIn line "[unknown]" ->
      Message (MessageSet.NewDrushMessage line) = strings.TrimSpace line)
  /\ (forall p, line = p +:+ "[unknown]" ->
      Message (MessageSet.NewDrushMessage line) = strings.TrimSpace p).
Proof.
  intros H.
  assert (E : strings.HasSuffix line DrushMessageError = false)
    by (apply not_endsIn_HasSuffix, H; set_solver).
  assert (W : strings.HasSuffix line DrushMessageWarning = false)
    by (apply not_endsIn_HasSuffix, H; set_solver).
  assert (N : strings.HasSuffix line DrushMessageNotice = false)
    by (apply not_endsIn_HasSuffix, H; set_solver).
  assert (K : strings.HasSuffix line DrushMessageOK = false)
    by (apply not_endsIn_HasSuffix, H; set_solver).
  unfold MessageSet.NewDrushMessage, DrushMessageType_String.
  rewrite E, W, N, K. cbn [Type_ Message].
  split; [reflexivity |]. split; [reflexivity |]. split.
  - intros U. apply not_endsIn_HasSuffix in U.
    unfold DrushMessageUnknown. now rewrite (TrimSuffix_without _ _ U).
  - intros p ->. unfold DrushMessageUnknown. now rewrite TrimSuffix_app.
Qed.

Lemma NewDrushMessage_unrecognized_witness :
  Type_ (MessageSet.NewDrushMessage "  Some output ") = DrushMessageUnknown
  /\ Message (MessageSet.NewDrushMessage "  Some output ")
     = strings.TrimSpace (strings.TrimSuffix "  Some output " "[unknown]")
  /\ (~ endsIn "  Some output " "[unknown]" ->
      Message (MessageSet.NewDrushMessage "  Some output ")
      = strings.TrimSpace "  Some output ")
  /\ (forall p, "  Some output " = p +:+ "[unknown]" ->
      Message (MessageSet.NewDrushMessage "  Some output ") = strings.TrimSpace p).
Proof.
  apply (NewDrushMessage_unrecognized "  Some output ").
  intros marker H. apply not_endsIn_HasSuffix.
  unfold recognizedMarkers in H.
  repeat (apply elem_of_cons in H as [-> | H]; [vm_compute; reflexivity |]).
  now apply elem_of_nil in H.
Defined.

(** The types a message of the classifier of lines 434-452 can have. *)
Lemma NewDrushMessage_types (line : string) :
  Type_ (MessageSet.NewDrushMessage line)
  ∈ [DrushMessageError; DrushMessageWarning; DrushMessageOK; DrushMessageUnknown].
Proof.
  unfold MessageSet.NewDrushMessage, DrushMessageType_String.
  repeat (match goal with |- context [if ?b then _ else _] => destruct b end);
    cbn [Type_]; set_solver.
Qed.

Lemma NewDrushMessage_success_types (line : string) :
  Type_ (Messages.NewDrushMessage line)
  ∈ [DrushMessageError; DrushMessageWarning; DrushMessageOK; DrushMessageSuccess;
     DrushMessageUnknown].
Proof.
  unfold Messages.NewDrushMessage, DrushMessageType_String.
  repeat (match goal with |- context [if ?b then _ else _] => destruct b end);
    cbn [Type_]; set_solver.
Qed.


(** ** The message set predicates *)

Lemma rangeHasType_spec (t : DrushMessageType) (des : list DrushMessage) :
  rangeHasType t des = true <-> exists m, m ∈ des /\ Type_ m = t.
Proof.
  induction des as [|m rest IH]; simpl.
  - split; [discriminate |]. intros (m & H & _). now apply elem_of_nil in H.
  - destruct (String.eqb_spec (Type_ m) t) as [E | NE].
    + split; [| reflexivity]. intros _. exists m. split; [left | exact E].
    + rewrite IH. split.
      * intros (m' & H & E). exists m'. split; [now right | exact E].
      * intros (m' & H & E). apply elem_of_cons in H as [-> | H]; [contradiction |].
        now exists m'.
Qed.

Lemma is_nil_elems {A : Type} (s : slice.t A) : slice.is_nil s = true -> slice.elems s = [].
Proof. now destruct s. Qed.

Lemma setHasType_spec (t : DrushMessageType) (des : DrushMessageSet) :
  (if slice.is_nil des then false else rangeHasType t (slice.elems des)) = true
  <-> exists m, m ∈ slice.elems des /\ Type_ m = t.
Proof.
  destruct des as [l|]; simpl; [apply rangeHasType_spec |].
  split; [discriminate |]. intros (m & H & _). now apply elem_of_nil in H.
Qed.

(** C7. On the [nil] set and on the empty set the four predicates return
    false; on every set, each returns true exactly when a message of the set
    has the type the predicate is named after. *)
Theorem Has_predicates_spec :
  (HasErrors slice.nil = false /\ HasWarnings slice.nil = false
   /\ HasNotices slice.nil = false /\ HasUnknowns slice.nil = false)
  /\ (HasErrors (Some []) = false /\ HasWarnings (Some []) = false
      /\ HasNotices (Some []) = false /\ HasUnknowns (Some []) = false)
  /\ forall des : DrushMessageSet,
      (HasErrors des = true
       <-> exists m, m ∈ slice.elems des /\ Type_ m = DrushMessageError)
      /\ (HasWarnings des = true
          <-> exists m, m ∈ slice.elems des /\ Type_ m = DrushMessageWarning)
      /\ (HasNotices des = true
          <-> exists m, m ∈ slice.elems des /\ Type_ m = DrushMessageNotice)
      /\ (HasUnknowns des = true
          <-> exists m, m ∈ slice.elems des /\ Type_ m = DrushMessageUnknown).
Proof.
  split; [repeat split |]. split; [repeat split |].
  intros des. repeat split; try apply setHasType_spec; apply setHasType_spec.
Qed.

(** ** The accumulators of [Run] *)

Section DrainFacts.

Variable NewDrushMessage : string -> DrushMessage.
Variable isOK : DrushMessage -> bool.



Lemma scanLines_elems (lines : list string) (acc : accumulators) :
  slice.elems (fst (scanLines NewDrushMessage isOK acc lines))
  = slice.elems (fst acc) ++ List.filter isOK (map NewDrushMessage lines)
  /\ slice.elems (snd (scanLines NewDrushMessage isOK acc lines))
     = slice.elems (snd acc) ++ List.filter (notOK isOK) (map NewDrushMessage lines).
Proof.
  revert acc. induction lines as [|line lines IH]; intros [messages errset].
  - simpl. now rewrite !app_nil_r.
  - unfold scanLines in *. cbn [fold_left map List.filter].
    assert (S : scanLine NewDrushMessage isOK (messages, errset) line
                = if isOK (NewDrushMessage line)
                  then (slice.append messages (NewDrushMessage line), errset)
                  else (messages, slice.append errset (NewDrushMessage line)))
      by reflexivity.
    rewrite S. clear S.
    replace (notOK isOK (NewDrushMessage line)) with (negb (isOK (NewDrushMessage line)))
      by reflexivity.
    destruct (isOK (NewDrushMessage line)); cbn [negb].
    + destruct (IH (slice.append messages (NewDrushMessage line), errset)) as [H1 H2].
      rewrite H1, H2. cbn [fst snd slice.append slice.elems].
      split; [now rewrite <- app_assoc | reflexivity].
    + destruct (IH (messages, slice.append errset (NewDrushMessage line))) as [H1 H2].
      rewrite H1, H2. cbn [fst snd slice.append slice.elems].
      split; [reflexivity | now rewrite <- app_assoc].
Qed.

Lemma waitCmd_elems (c : Cmd) (acc : accumulators) :
  fst (waitCmd NewDrushMessage c acc) = fst acc
  /\ slice.elems (snd (waitCmd NewDrushMessage c acc))
     = slice.elems (snd acc) ++ waitMessage NewDrushMessage c.
Proof.
  destruct acc as [messages errset]. unfold waitCmd, waitMessage.
  destruct (Wait c); simpl; [tauto | now rewrite app_nil_r].
Qed.

(** [messages]: the messages of the lines that pass [isOK], in the order
    of the lines, whatever the schedule. *)
Lemma drain_messages (c : Cmd) (k : nat) :
  slice.elems (fst (drain NewDrushMessage isOK c k))
  = List.filter isOK (map NewDrushMessage (stderr c)).
Proof.
  unfold drain.
  destruct (scanLines_elems (drop k (stderr c))
    (waitCmd NewDrushMessage c
       (scanLines NewDrushMessage isOK (slice.nil, Some []) (take k (stderr c)))))
    as [H _].
  rewrite H.
  destruct (waitCmd_elems c
    (scanLines NewDrushMessage isOK (slice.nil, Some []) (take k (stderr c)))) as [W _].
  rewrite W.
  destruct (scanLines_elems (take k (stderr c)) (slice.nil, Some [])) as [T _].
  rewrite T. simpl.
  rewrite <- List.filter_app, <- map_app. now rewrite take_drop.
Qed.

(** [errset]: the messages of the other lines in their order, with the
    message of [cmd.Wait]'s error after those of the first [k] lines. *)
Lemma drain_errset (c : Cmd) (k : nat) :
  slice.elems (snd (drain NewDrushMessage isOK c k))
  = List.filter (notOK isOK) (map NewDrushMessage (take k (stderr c)))
    ++ waitMessage NewDrushMessage c
    ++ List.filter (notOK isOK) (map NewDrushMessage (drop k (stderr c))).
Proof.
  unfold drain.
  destruct (scanLines_elems (drop k (stderr c))
    (waitCmd NewDrushMessage c
       (scanLines NewDrushMessage isOK (slice.nil, Some []) (take k (stderr c)))))
    as [_ H].
  rewrite H.
  destruct (waitCmd_elems c
    (scanLines NewDrushMessage isOK (slice.nil, Some []) (take k (stderr c)))) as [_ W].
  rewrite W.
  destruct (scanLines_elems (take k (stderr c)) (slice.nil, Some [])) as [_ T].
  rewrite T. simpl. now rewrite <- app_assoc.
Qed.

Lemma scanLines_errset_not_nil (lines : list string) (acc : accumulators) :
  slice.is_nil (snd acc) = false ->
  slice.is_nil (snd (scanLines NewDrushMessage isOK acc lines)) = false.
Proof.
  revert acc. induction lines as [|line lines IH]; intros [messages errset] H; [exact H |].
  unfold scanLines in *. simpl fold_left.
  destruct (isOK (NewDrushMessage line)); apply IH; [exact H | reflexivity].
Qed.

(** [errset] starts as the empty literal and is never [nil]. *)
Lemma drain_errset_not_nil (c : Cmd) (k : nat) :
  slice.is_nil (snd (drain NewDrushMessage isOK c k)) = false.
Proof.
  unfold drain. apply scanLines_errset_not_nil.
  pose proof (scanLines_errset_not_nil (take k (stderr c)) (slice.nil, Some []) eq_refl) as H.
  destruct (scanLines NewDrushMessage isOK (slice.nil, Some []) (take k (stderr c)))
    as [messages errset].
  unfold waitCmd. now destruct (Wait c).
Qed.

Lemma scanLines_app (l1 l2 : list string) (acc : accumulators) :
  scanLines NewDrushMessage isOK acc (l1 ++ l2)
  = scanLines NewDrushMessage isOK (scanLines NewDrushMessage isOK acc l1) l2.
Proof. unfold scanLines. apply fold_left_app. Qed.

Lemma steps_scan (c : Cmd) (l1 l2 : list string) (acc : accumulators) (w : bool) :
  rtc (step NewDrushMessage isOK c)
    {| pending := l1 ++ l2; slices := acc; waited := w |}
    {| pending := l2; slices := scanLines NewDrushMessage isOK acc l1; waited := w |}.
Proof.
  revert acc. induction l1 as [|line l1 IH]; intros acc; [apply rtc_refl |].
  eapply rtc_l; [apply step_scan |]. apply IH.
Qed.

(** what holds of every state a run reaches *)
Definition reached (c : Cmd) (st : RunState) : Prop :=
  exists done,
    stderr c = done ++ pending st
    /\ if waited st
       then exists k, k <= length done
            /\ slices st
               = scanLines NewDrushMessage isOK
                   (waitCmd NewDrushMessage c
                      (scanLines NewDrushMessage isOK (slice.nil, Some []) (take k done)))
                   (drop k done)
       else slices st = scanLines NewDrushMessage isOK (slice.nil, Some []) done.

Lemma steps_reached (c : Cmd) (st : RunState) :
  rtc (step NewDrushMessage isOK c) (initial c) st -> reached c st.
Proof.
  revert st. apply rtc_ind_r.
  - exists []. split; reflexivity.
  - intros st st' _ Hstep IH. destruct IH as (done & Hd & Hs). destruct Hstep as [line rest acc w | lines acc];
      cbn [pending slices waited] in *.
    + exists (done ++ [line]). split; [now rewrite <- app_assoc |].
      destruct w.
      * destruct Hs as (k & Hk & ->). exists k. split; [rewrite length_app; lia |].
        rewrite take_app_le, drop_app_le by exact Hk.
        now rewrite scanLines_app.
      * rewrite Hs. now rewrite scanLines_app.
    + exists done. split; [exact Hd |]. exists (length done). split; [lia |].
      rewrite firstn_all, drop_all. now rewrite Hs.
Qed.

(** The interleavings and the schedules agree: the slices a run can have
    when [wg.Wait()] returns are those of [drain] under the schedules [k]. *)
Lemma steps_drain (c : Cmd) (acc : accumulators) :
  (exists st, rtc (step NewDrushMessage isOK c) (initial c) st
              /\ joined st /\ slices st = acc)
  <-> exists k, k <= length (stderr c) /\ acc = drain NewDrushMessage isOK c k.
Proof.
  split.
  - intros (st & Hr & (Hp & Hw) & <-).
    destruct (steps_reached c st Hr) as (done & Hd & Hs).
    rewrite Hp, app_nil_r in Hd. subst done. rewrite Hw in Hs.
    destruct Hs as (k & Hk & Hs). exists k. split; [exact Hk | exact Hs].
  - intros (k & Hk & ->).
    exists {| pending := []; slices := drain NewDrushMessage isOK c k; waited := true |}.
    split; [| split; [split |]; reflexivity].
    unfold initial. rewrite <- (take_drop k (stderr c)) at 1.
    eapply rtc_trans; [apply steps_scan |].
    eapply rtc_l; [apply step_wait |].
    rewrite <- (app_nil_r (drop k (stderr c))) at 1. apply steps_scan.
Qed.

(** With the stderr goroutine done before [cmd.Wait] returns, the message
    of the error is the last one. *)
Lemma drain_errset_drained (c : Cmd) (k : nat) :
  length (stderr c) <= k ->
  slice.elems (snd (drain NewDrushMessage isOK c k))
  = List.filter (notOK isOK) (map NewDrushMessage (stderr c)) ++ waitMessage NewDrushMessage c.
Proof.
  intros Hk. rewrite drain_errset.
  rewrite take_ge, drop_ge by exact Hk. simpl. now rewrite app_nil_r.
Qed.

End DrainFacts.


Lemma MessageSet_Run_started (d : Cmd) (k : nat) :
  started d ->
  MessageSet.Run d k
  = (stdout d, fst (MessageSet.accumulated d k),
     if HasErrors (snd (MessageSet.accumulated d k))
     then Some (SetError (snd (MessageSet.accumulated d k))) else None).
Proof.
  intros (E1 & E2 & E3). unfold MessageSet.Run. rewrite E1, E2, E3.
  now destruct (MessageSet.accumulated d k).
Qed.

Lemma Messages_Run_started (d : Cmd) (k : nat) :
  started d ->
  Messages.Run d k
  = (stdout d, fst (Messages.accumulated d k),
     if negb (slice.is_nil (snd (Messages.accumulated d k)))
        && (0 <? slice.len (snd (Messages.accumulated d k)))
     then Some (SetError (snd (Messages.accumulated d k))) else None).
Proof.
  intros (E1 & E2 & E3). unfold Messages.Run. rewrite E1, E2, E3.
  now destruct (Messages.accumulated d k).
Qed.

(** Standard output is returned as the process wrote it. *)
Lemma Run_stdout (d : Cmd) (k : nat) :
  started d ->
  output_of (MessageSet.Run d k) = stdout d /\ output_of (Messages.Run d k) = stdout d.
Proof.
  intros Hs. now rewrite (MessageSet_Run_started d k Hs), (Messages_Run_started d k Hs).
Qed.

(** When a pipe cannot be had or the process does not start, [Run] returns
    the error of [os/exec] as it is, no output and no messages. *)
Lemma Run_transport_failure (d : Cmd) (k : nat) :
  ~ started d ->
  exists err,
    (StderrPipe d = Some err
     \/ (StderrPipe d = None /\ StdoutPipe d = Some err)
     \/ (StderrPipe d = None /\ StdoutPipe d = None /\ Start d = Some err))
    /\ MessageSet.Run d k = ("", slice.nil, Some (ExecError err))
    /\ Messages.Run d k = ("", slice.nil, Some (ExecError err)).
Proof.
  unfold started, MessageSet.Run, Messages.Run. intros H.
  destruct (StderrPipe d) as [e1|]; [exists e1; tauto |].
  destruct (StdoutPipe d) as [e2|]; [exists e2; tauto |].
  destruct (Start d) as [e3|]; [exists e3; tauto |].
  tauto.
Qed.

(** ** What the classifier never produces *)

Section NeverType.

Variable NewDrushMessage : string -> DrushMessage.
Variable isOK : DrushMessage -> bool.
Variable t : DrushMessageType.
Hypothesis never : forall line, Type_ (NewDrushMessage line) <> t.

Lemma classified_rangeHasType (l : list DrushMessage) :
  (forall m, m ∈ l -> exists line, m = NewDrushMessage line) ->
  rangeHasType t l = false.
Proof.
  intros H. destruct (rangeHasType t l) eqn:E; [| reflexivity].
  apply rangeHasType_spec in E as (m & Hm & Et).
  destruct (H m Hm) as [line ->]. now apply never in Et.
Qed.

Lemma filter_classified (f : DrushMessage -> bool) (lines : list string) (m : DrushMessage) :
  m ∈ List.filter f (map NewDrushMessage lines) -> exists line, m = NewDrushMessage line.
Proof.
  intros H. apply list_elem_of_In, List.filter_In in H as [H _].
  apply List.in_map_iff in H as (line & <- & _). now exists line.
Qed.

Lemma drain_classified (c : Cmd) (k : nat) (m : DrushMessage) :
  m ∈ slice.elems (fst (drain NewDrushMessage isOK c k))
  \/ m ∈ slice.elems (snd (drain NewDrushMessage isOK c k)) ->
  exists line, m = NewDrushMessage line.
Proof.
  rewrite drain_messages, drain_errset. intros [H | H].
  - now apply filter_classified in H.
  - apply elem_of_app in H as [H | H]; [now apply filter_classified in H |].
    apply elem_of_app in H as [H | H]; [| now apply filter_classified in H].
    unfold waitMessage in H. destruct (Wait c) as [err|].
    + apply list_elem_of_singleton in H. now exists err.
    + now apply elem_of_nil in H.
Qed.

Lemma drain_never (c : Cmd) (k : nat) :
  rangeHasType t (slice.elems (fst (drain NewDrushMessage isOK c k))) = false
  /\ rangeHasType t (slice.elems (snd (drain NewDrushMessage isOK c k))) = false.
Proof.
  split; apply classified_rangeHasType; intros m Hm;
    apply (drain_classified c k); [now left | now right].
Qed.

End NeverType.

Lemma HasNotices_rangeHasType (des : DrushMessageSet) :
  rangeHasType DrushMessageNotice (slice.elems des) = false -> HasNotices des = false.
Proof. unfold HasNotices. now destruct (slice.is_nil des). Qed.

Lemma NewDrushMessage_not_notice (line : string) :
  Type_ (MessageSet.NewDrushMessage line) <> DrushMessageNotice.
Proof.
  pose proof (NewDrushMessage_types line) as H.
  intros E. rewrite E in H.
  repeat (apply elem_of_cons in H as [H | H]; [discriminate H |]).
  now apply elem_of_nil in H.
Qed.

Lemma NewDrushMessage_success_not_notice (line : string) :
  Type_ (Messages.NewDrushMessage line) <> DrushMessageNotice.
Proof.
  pose proof (NewDrushMessage_success_types line) as H.
  intros E. rewrite E in H.
  repeat (apply elem_of_cons in H as [H | H]; [discriminate H |]).
  now apply elem_of_nil in H.
Qed.

(** C8. No line gets the type [[notice]] from [NewDrushMessage]; so
    [HasNotices] is false on every set of classified lines, and on both sets
    [Run] builds, under every schedule. *)
Theorem NewDrushMessage_never_notice :
  (forall line, Type_ (MessageSet.NewDrushMessage line) <> DrushMessageNotice)
  /\ (forall line, endsIn line DrushMessageNotice ->
        Type_ (MessageSet.NewDrushMessage line) = DrushMessageWarning)
  /\ (forall lines, HasNotices (Some (map MessageSet.NewDrushMessage lines)) = false)
  /\ (forall d k,
        HasNotices (fst (MessageSet.accumulated d k)) = false
        /\ HasNotices (snd (MessageSet.accumulated d k)) = false).
Proof.
  split; [exact NewDrushMessage_not_notice |]. split; [| split].
  - intros line [p ->]. unfold DrushMessageNotice. now rewrite NewDrushMessage_notice_line.
  - intros lines. apply HasNotices_rangeHasType.
    apply (classified_rangeHasType MessageSet.NewDrushMessage _ NewDrushMessage_not_notice).
    intros m H. apply list_elem_of_In, List.in_map_iff in H as (line & <- & _). now exists line.
  - intros d k.
    destruct (drain_never MessageSet.NewDrushMessage MessageSet.isOK _
                NewDrushMessage_not_notice d k) as [H1 H2].
    split; now apply HasNotices_rangeHasType.
Qed.

(** ** The results of [Run] *)







(** C2, as stated, fails for [Run] of lines 361-416, which returns the set
    only when [HasErrors] holds: one warning, no error returned. *)
Lemma Run_warning_only_returns_nil :
  ~ error_iff_nonempty MessageSet.Run MessageSet.accumulated.
Proof.
  intros H. specialize (H warningCmd 1).
  destruct H as [_ H]; [repeat split |].
  apply H; [vm_compute; lia | reflexivity].
Qed.

(** C2, amended. For a process that started, under every schedule: [Run] of
    lines 149-204 returns an error exactly when the error set has a message,
    whatever the types, and the error is that set; [Run] of lines 361-416
    returns an error exactly when the error set has a message of type
    [[error]], and the error is that set. With an empty set both return
    [nil]. *)
Theorem Run_error_value (d : Cmd) (k : nat) :
  started d ->
  ((errs_of (Messages.Run d k) <> None <-> 0 < slice.len (snd (Messages.accumulated d k)))
   /\ (errs_of (Messages.Run d k) <> None ->
       errs_of (Messages.Run d k) = Some (SetError (snd (Messages.accumulated d k)))))
  /\ ((errs_of (MessageSet.Run d k) <> None
       <-> exists m, m ∈ slice.elems (snd (MessageSet.accumulated d k))
                     /\ Type_ m = DrushMessageError)
      /\ (errs_of (MessageSet.Run d k) <> None ->
          errs_of (MessageSet.Run d k) = Some (SetError (snd (MessageSet.accumulated d k))))
      /\ (slice.len (snd (MessageSet.accumulated d k)) = 0 ->
          errs_of (MessageSet.Run d k) = None)).
Proof.
  intros Hs. split.
  - rewrite (Messages_Run_started d k Hs). unfold errs_of. cbn [snd].
    unfold Messages.accumulated. rewrite drain_errset_not_nil. cbn [negb andb].
    destruct (Nat.ltb_spec 0 (slice.len (snd (drain Messages.NewDrushMessage Messages.isOK d k))))
      as [L | L].
    + split; [| reflexivity]. split; [now intros _ | discriminate].
    + split; [| now intros []]. split; [now intros [] | lia].
  - rewrite (MessageSet_Run_started d k Hs). unfold errs_of. cbn [snd].
    pose proof (setHasType_spec DrushMessageError (snd (MessageSet.accumulated d k))) as S.
    fold (HasErrors (snd (MessageSet.accumulated d k))) in S.
    destruct (HasErrors (snd (MessageSet.accumulated d k))) eqn:E.
    + split; [| split; [reflexivity |]].
      * split; [intros _; now apply S | discriminate].
      * intros L. destruct (proj1 S eq_refl) as (m & Hm & _).
        unfold slice.len in L. apply length_zero_iff_nil in L. rewrite L in Hm.
        now apply elem_of_nil in Hm.
    + split; [| split; [now intros [] | reflexivity]].
      split; [now intros [] |]. intros Hm. apply S in Hm. discriminate.
Qed.

Lemma Run_error_value_witness :
  started sampleCmd
  /\ (errs_of (Messages.Run sampleCmd 5) <> None
      <-> 0 < slice.len (snd (Messages.accumulated sampleCmd 5)))
  /\ (errs_of (MessageSet.Run sampleCmd 5) <> None
      <-> exists m, m ∈ slice.elems (snd (MessageSet.accumulated sampleCmd 5))
                    /\ Type_ m = DrushMessageError).
Proof.
  split; [repeat split |].
  split; apply (Run_error_value sampleCmd 5); repeat split.
Defined.



(** C3. The message of [cmd.Wait]'s error is appended before [wg.Wait()],
    while the stderr goroutine may still be appending: when the main
    goroutine gets there first (schedule 0), the message of the exit status
    comes before the message of the stderr line. When the stderr goroutine is
    done first, it comes last ([drain_errset_drained]); a failing pipe or
    start gives the plain error ([Run_transport_failure]). *)
Theorem Run_wait_message_before_stderr_line :
  started failingCmd
  /\ MessageSet.Run failingCmd 0
     = ("", slice.nil,
        Some (SetError (Some
          [ {| Message := "exit status 1"; Type_ := DrushMessageUnknown |};
            {| Message := "The drush command 'pm-list' could not be executed.";
               Type_ := DrushMessageError |} ])))
  /\ MessageSet.Run failingCmd 1
     = ("", slice.nil,
        Some (SetError (Some
          [ {| Message := "The drush command 'pm-list' could not be executed.";
               Type_ := DrushMessageError |};
            {| Message := "exit status 1"; Type_ := DrushMessageUnknown |} ]))).
Proof. split; [repeat split |]. split; reflexivity. Qed.

(** ** The settings accessors *)

(** The five accessors that use the two-result type assertion return the
    stored value when it has the asserted type and the zero value otherwise. *)
Lemma GetString_spec (s : Settings) (key : string) :
  GetString s key = match index s key with Some (VString x) => x | _ => "" end.
Proof. unfold GetString. now destruct (index s key) as [[]|]. Qed.

Lemma GetInt_spec (s : Settings) (key : string) :
  GetInt s key = match index s key with Some (VInt x) => x | _ => 0%Z end.
Proof. unfold GetInt. now destruct (index s key) as [[]|]. Qed.

Lemma GetBool_spec (s : Settings) (key : string) :
  GetBool s key = match index s key with Some (VBool x) => x | _ => false end.
Proof. unfold GetBool. now destruct (index s key) as [[]|]. Qed.

Lemma GetFloat_spec (s : Settings) (key : string) :
  GetFloat s key = match index s key with Some (VFloat64 x) => x | _ => 0%Z end.
Proof. unfold GetFloat. now destruct (index s key) as [[]|]. Qed.

Lemma GetAssocArray_spec (s : Settings) (key : string) :
  GetAssocArray s key = match index s key with Some (VSettings x) => x | _ => None end.
Proof. unfold GetAssocArray. now destruct (index s key) as [[]|]. Qed.

(** [GetArray] returns exactly when the key is absent or holds a
    [[]interface{}]: [nil] for an absent key, else the strings of the slice in
    order, in a slice that is not [nil]. *)
Lemma rangeStrings_elems (arrayval : list value) (array : slice.t string) :
  slice.elems (rangeStrings array arrayval)
  = slice.elems array
    ++ omap (fun v => match v with VString x => Some x | _ => None end) arrayval.
Proof.
  revert array. induction arrayval as [|v rest IH]; intros array; simpl.
  - now rewrite app_nil_r.
  - destruct v; rewrite IH; try reflexivity.
    simpl. now rewrite <- app_assoc.
Qed.

Lemma GetArray_returns (s : Settings) (key : string) :
  (exists array, GetArray s key = Returns array)
  <-> (index s key = None \/ exists arrayval, index s key = Some (VSlice arrayval)).
Proof.
  unfold GetArray. destruct (index s key) as [v|].
  - split.
    + intros [array H]. right. destruct v; try discriminate H. now eexists.
    + intros [H | [arrayval H]]; [discriminate H |]. injection H as ->. now eexists.
  - split; [now left |]. intros _. now eexists.
Qed.

Lemma GetArray_panics (s : Settings) (key : string) :
  GetArray s key = Panics
  <-> exists v, index s key = Some v /\ forall arrayval, v <> VSlice arrayval.
Proof.
  unfold GetArray. destruct (index s key) as [v|].
  - split.
    + intros H. exists v. split; [reflexivity |]. intros arrayval ->. discriminate H.
    + intros (v' & [= <-] & H). destruct v; try reflexivity. now destruct (H l).
  - split; [discriminate |]. now intros (v & H & _).
Qed.

Example decodedSettings_values :
  GetString decodedSettings "hash_salt" = "X"
  /\ GetArray decodedSettings "list" = Returns (Some ["a"; "b"])
  /\ GetString decodedSettings "missing" = ""
  /\ GetArray decodedSettings "missing" = Returns slice.nil
  /\ GetString decodedSettings "list" = "".
Proof. repeat split. Qed.

(** C6. [GetArray] asserts [[]interface{}] with the one-result form of the
    type assertion, unlike its five siblings: on the settings decoded from
    [{"hash_salt": "X", "list": ["a","b"]}], where [GetString("hash_salt")] is
    ["X"], [GetArray("hash_salt")] panics instead of returning [nil]. *)
Theorem GetArray_panics_on_string :
  HasValue decodedSettings "hash_salt" = true
  /\ GetString decodedSettings "hash_salt" = "X"
  /\ GetArray decodedSettings "hash_salt" = Panics.
Proof. repeat split. Qed.

(** ** The data-source string *)

(** C10. [Open] calls [sql.Open] with the driver of the [Driver] field and
    the data-source string: user name, [":"] and password when the password is
    not empty, ["@"] and host, [":"] and port when the port is not empty,
    ["/"] and database name. *)
Theorem Open_dataSourceName (db : Database) :
  Open db = sql_Open (Driver db) (dataSourceName_spec db).
Proof.
  unfold Open, dataSourceName_spec. f_equal.
  destruct (String.eqb_spec (Password db) "") as [P | P];
    destruct (String.eqb_spec (Port db) "") as [Q | Q];
    repeat case_decide; try contradiction; cbn [negb];
    rewrite ?app_assoc_s, ?app_nil_s; reflexivity.
Qed.

Example Open_test_database :
  Open {| Database_ := "drupal"; Username := "root"; Password := ""; Prefix := "";
          Host := "mysql"; Port := "3306"; Namespace := ""; Driver := "mysql" |}
  = sql_Open "mysql" "root@mysql:3306/drupal".
Proof. reflexivity. Qed.

(** ** What [TrimSpace] removes *)


Lemma spaces_app (a b : string) : spaces a -> spaces b -> spaces (a +:+ b).
Proof.
  induction 1 as [|e s He Hs IH]; intros Hb; [exact Hb |].
  rewrite app_assoc_s. apply spaces_cons; [exact He | now apply IH].
Qed.

Lemma spaces_rune (e : string) : e ∈ strings.spaceRunes -> spaces e.
Proof. intros H. rewrite <- (app_empty_r e). apply spaces_cons; [exact H | constructor]. Qed.

Lemma spaceRunes_not_empty (e : string) : e ∈ strings.spaceRunes -> 0 < strings.len e.
Proof.
  intros H. unfold strings.spaceRunes in H.
  repeat (apply elem_of_cons in H as [-> | H]; [vm_compute; lia |]).
  now apply elem_of_nil in H.
Qed.

Lemma HasPrefix_inv (s prefix : string) :
  strings.HasPrefix s prefix = true -> s = prefix +:+ strings.TrimPrefix s prefix.
Proof.
  intros H. unfold strings.TrimPrefix. rewrite H.
  unfold strings.HasPrefix in H. apply andb_prop in H as [Hle Heq].
  apply Nat.leb_le in Hle. apply String.eqb_eq in Heq.
  unfold strings.len in *.
  rewrite <- Heq at 1. now apply substring_split.
Qed.

Lemma HasPrefix_app (prefix s : string) : strings.HasPrefix (prefix +:+ s) prefix = true.
Proof.
  unfold strings.HasPrefix. rewrite len_app. apply andb_true_intro. split.
  - apply Nat.leb_le. lia.
  - unfold strings.len. rewrite substring_app_l. apply String.eqb_refl.
Qed.

Lemma cutSpaceLeft_in_Some (runes : list string) (s s' : string) :
  strings.cutSpaceLeft_in runes s = Some s' -> exists e, e ∈ runes /\ s = e +:+ s'.
Proof.
  induction runes as [|e rest IH]; simpl; [discriminate |].
  destruct (strings.HasPrefix s e) eqn:E.
  - intros [= <-]. exists e. split; [left | now apply HasPrefix_inv].
  - intros H. destruct (IH H) as (e' & He' & ->). exists e'. split; [now right | reflexivity].
Qed.

Lemma cutSpaceLeft_in_None (runes : list string) (s : string) :
  strings.cutSpaceLeft_in runes s = None <-> forall e, e ∈ runes -> strings.HasPrefix s e = false.
Proof.
  induction runes as [|e rest IH]; simpl.
  - split; [| reflexivity]. intros _ e H. now apply elem_of_nil in H.
  - destruct (strings.HasPrefix s e) eqn:E.
    + split; [discriminate |]. intros H. specialize (H e (list_elem_of_here _ _)). congruence.
    + rewrite IH. split.
      * intros H e' He'. apply elem_of_cons in He' as [-> | He']; [exact E | now apply H].
      * intros H e' He'. apply H. now right.
Qed.

Lemma cutSpaceRight_in_Some (runes : list string) (s s' : string) :
  strings.cutSpaceRight_in runes s = Some s' -> exists e, e ∈ runes /\ s = s' +:+ e.
Proof.
  induction runes as [|e rest IH]; simpl; [discriminate |].
  destruct (strings.HasSuffix s e) eqn:E.
  - intros [= <-]. exists e. split; [left |].
    unfold strings.TrimSuffix. rewrite E. now apply HasSuffix_inv.
  - intros H. destruct (IH H) as (e' & He' & ->). exists e'. split; [now right | reflexivity].
Qed.

Lemma cutSpaceRight_in_None (runes : list string) (s : string) :
  strings.cutSpaceRight_in runes s = None <-> forall e, e ∈ runes -> strings.HasSuffix s e = false.
Proof.
  induction runes as [|e rest IH]; simpl.
  - split; [| reflexivity]. intros _ e H. now apply elem_of_nil in H.
  - destruct (strings.HasSuffix s e) eqn:E.
    + split; [discriminate |]. intros H. specialize (H e (list_elem_of_here _ _)). congruence.
    + rewrite IH. split.
      * intros H e' He'. apply elem_of_cons in He' as [-> | He']; [exact E | now apply H].
      * intros H e' He'. apply H. now right.
Qed.

(** The left trim stops on a string that starts with no white space rune,
    and what it removed is a run of white space runes. *)
Lemma trimLeft_spec (fuel : nat) (s : string) :
  strings.len s <= fuel ->
  strings.cutSpaceLeft (strings.trimLeft fuel s) = None
  /\ exists l, spaces l /\ s = l +:+ strings.trimLeft fuel s.
Proof.
  revert s. induction fuel as [|fuel IH]; intros s Hlen.
  - assert (s = "") as -> by (destruct s; [reflexivity | simpl in Hlen; lia]).
    split; [reflexivity |]. exists "". split; [constructor | reflexivity].
  - simpl. destruct (strings.cutSpaceLeft s) as [s'|] eqn:E.
    + destruct (cutSpaceLeft_in_Some _ _ _ E) as (e & He & ->).
      pose proof (spaceRunes_not_empty e He) as Hpos. rewrite len_app in Hlen.
      destruct (IH s') as [H1 (l & Hl & H2)]; [lia |].
      split; [exact H1 |]. exists (e +:+ l). split; [now apply spaces_cons |].
      rewrite app_assoc_s. now rewrite <- H2.
    + split; [exact E |]. exists "". split; [constructor | reflexivity].
Qed.

Lemma trimRight_spec (fuel : nat) (s : string) :
  strings.len s <= fuel ->
  strings.cutSpaceRight (strings.trimRight fuel s) = None
  /\ exists r, spaces r /\ s = strings.trimRight fuel s +:+ r.
Proof.
  revert s. induction fuel as [|fuel IH]; intros s Hlen.
  - assert (s = "") as -> by (destruct s; [reflexivity | simpl in Hlen; lia]).
    split; [reflexivity |]. exists "". split; [constructor | reflexivity].
  - simpl. destruct (strings.cutSpaceRight s) as [s'|] eqn:E.
    + destruct (cutSpaceRight_in_Some _ _ _ E) as (e & He & ->).
      pose proof (spaceRunes_not_empty e He) as Hpos. rewrite len_app in Hlen.
      destruct (IH s') as [H1 (r & Hr & H2)]; [lia |].
      split; [exact H1 |]. exists (r +:+ e). split.
      * apply spaces_app; [exact Hr | now apply spaces_rune].
      * rewrite <- app_assoc_s. now rewrite <- H2.
    + split; [exact E |]. exists "". split; [constructor | now rewrite app_empty_r].
Qed.

(** [TrimSpace s] is [s] without a run of white space runes at each end, and
    neither starts nor ends with a white space rune. *)
Lemma TrimSpace_spec (s : string) :
  (exists l r, spaces l /\ spaces r /\ s = l +:+ strings.TrimSpace s +:+ r)
  /\ strings.cutSpaceLeft (strings.TrimSpace s) = None
  /\ strings.cutSpaceRight (strings.TrimSpace s) = None.
Proof.
  unfold strings.TrimSpace, strings.TrimLeftSpace, strings.TrimRightSpace.
  destruct (trimLeft_spec (strings.len s) s (le_n _)) as [L (l & Hl & El)].
  set (t := strings.trimLeft (strings.len s) s) in *.
  destruct (trimRight_spec (strings.len t) t (le_n _)) as [R (r & Hr & Er)].
  set (u := strings.trimRight (strings.len t) t) in *.
  split; [| split; [| exact R]].
  - exists l, r. split; [exact Hl |]. split; [exact Hr |]. now rewrite <- Er.
  - apply cutSpaceLeft_in_None. intros e He.
    destruct (strings.HasPrefix u e) eqn:E; [| reflexivity].
    apply HasPrefix_inv in E.
    pose proof (proj1 (cutSpaceLeft_in_None _ _) L e He) as F.
    rewrite Er, E, app_assoc_s, HasPrefix_app in F. discriminate.
Qed.

(** * Further properties *)

(** ** Two suffixes of one line *)

Lemma substring_length (n m : nat) (s : string) :
  n + m <= String.length s -> String.length (String.substring n m s) = m.
Proof.
  revert m s. induction n as [|n IH]; intros m s H.
  - revert s H. induction m as [|m IHm]; intros [|c s] H; simpl in *; try lia; try reflexivity.
    f_equal. apply IHm. lia.
  - destruct s as [|c s]; simpl in *; [lia |]. apply IH. lia.
Qed.

(** [y] at least as long as [x], and [x] no suffix of [y]: no line ends in
    both. *)
Lemma HasSuffix_two (p x y : string) :
  strings.len x <= strings.len y ->
  strings.HasSuffix y x = false ->
  strings.HasSuffix (p +:+ x) y = false.
Proof.
  intros Hle Hyx. unfold strings.len in Hle.
  pose proof (substring_split (String.length y - String.length x) y ltac:(lia)) as Ey.
  replace (String.length y - (String.length y - String.length x))
    with (String.length x) in Ey by lia.
  set (y1 := String.substring 0 (String.length y - String.length x) y) in *.
  set (y2 := String.substring (String.length y - String.length x) (String.length x) y) in *.
  assert (L2 : String.length y2 = String.length x) by (apply substring_length; lia).
  rewrite Ey. apply HasSuffix_app_long; [unfold strings.len; lia |].
  unfold strings.HasSuffix in *. unfold strings.len in *.
  rewrite L2, Nat.sub_diag, substring_all.
  destruct (Nat.leb_spec (String.length x) (String.length y)) as [_ |]; [| lia].
  cbn [andb] in Hyx. fold y2 in Hyx.
  rewrite String.eqb_sym, Hyx. apply andb_false_r.
Qed.

Ltac other_marker :=
  first [ rewrite HasSuffix_app_short by (vm_compute; lia); reflexivity
        | apply HasSuffix_two; [vm_compute; lia | reflexivity] ].

(** A line ends in at most one marker. *)
Lemma marker_exclusive (p a b : string) :
  a ∈ allMarkers -> b ∈ allMarkers -> a <> b ->
  strings.HasSuffix (p +:+ a) b = false.
Proof.
  unfold allMarkers. intros Ha Hb Hab.
  repeat (apply elem_of_cons in Ha as [-> | Ha]);
    try (now apply elem_of_nil in Ha);
    repeat (apply elem_of_cons in Hb as [-> | Hb]);
    try (now apply elem_of_nil in Hb);
    try contradiction; other_marker.
Qed.

Lemma endsIn_exclusive (line a b : string) :
  a ∈ allMarkers -> b ∈ allMarkers -> endsIn line a -> endsIn line b -> a = b.
Proof.
  intros Ha Hb [p ->] Hbb. destruct (decide (a = b)) as [E | NE]; [exact E |].
  apply endsIn_HasSuffix in Hbb. rewrite (marker_exclusive p a b Ha Hb NE) in Hbb.
  discriminate.
Qed.

(** ** The classifier, line by line *)

Ltac in_markers := unfold allMarkers; set_solver.

(** the five ways through [NewDrushMessage] of lines 434-452 *)
Lemma NewDrushMessage_cases (line : string) :
  (endsIn line DrushMessageError
   /\ Type_ (MessageSet.NewDrushMessage line) = DrushMessageError)
  \/ (endsIn line DrushMessageWarning
      /\ Type_ (MessageSet.NewDrushMessage line) = DrushMessageWarning)
  \/ (endsIn line DrushMessageNotice
      /\ Type_ (MessageSet.NewDrushMessage line) = DrushMessageWarning)
  \/ (endsIn line DrushMessageOK
      /\ Type_ (MessageSet.NewDrushMessage line) = DrushMessageOK)
  \/ ((forall marker, marker ∈ recognizedMarkers -> ~ endsIn line marker)
      /\ Type_ (MessageSet.NewDrushMessage line) = DrushMessageUnknown).
Proof.
  unfold MessageSet.NewDrushMessage, DrushMessageType_String.
  destruct (strings.HasSuffix line DrushMessageError) eqn:E;
    [left; split; [now apply endsIn_HasSuffix | reflexivity] | right].
  destruct (strings.HasSuffix line DrushMessageWarning) eqn:W;
    [left; split; [now apply endsIn_HasSuffix | reflexivity] | right].
  destruct (strings.HasSuffix line DrushMessageNotice) eqn:N;
    [left; split; [now apply endsIn_HasSuffix | reflexivity] | right].
  destruct (strings.HasSuffix line DrushMessageOK) eqn:K;
    [left; split; [now apply endsIn_HasSuffix | reflexivity] | right].
  split; [| reflexivity].
  intros marker H. apply not_endsIn_HasSuffix. unfold recognizedMarkers in H.
  repeat (apply elem_of_cons in H as [-> | H]; [assumption |]).
  now apply elem_of_nil in H.
Qed.

(** The type of a message tells how the line ends, and the other way round:
    error for [[error]], warning for [[warning]] and for [[notice]], ok for
    [[ok]], unknown for every other line. *)
Theorem NewDrushMessage_type_iff (line : string) :
  (Type_ (MessageSet.NewDrushMessage line) = DrushMessageError
   <-> endsIn line DrushMessageError)
  /\ (Type_ (MessageSet.NewDrushMessage line) = DrushMessageWarning
      <-> endsIn line DrushMessageWarning \/ endsIn line DrushMessageNotice)
  /\ (Type_ (MessageSet.NewDrushMessage line) = DrushMessageOK
      <-> endsIn line DrushMessageOK)
  /\ (Type_ (MessageSet.NewDrushMessage line) = DrushMessageUnknown
      <-> forall marker, marker ∈ recognizedMarkers -> ~ endsIn line marker).
Proof.
  assert (X : forall a b, a ∈ allMarkers -> b ∈ allMarkers -> a <> b ->
                endsIn line a -> endsIn line b -> False)
    by (intros a b Ha Hb Hab H1 H2; apply Hab; now apply (endsIn_exclusive line)).
  assert (R : forall marker, marker ∈ recognizedMarkers -> endsIn line marker ->
                (forall marker, marker ∈ recognizedMarkers -> ~ endsIn line marker) -> False)
    by (intros marker Hm He H; exact (H marker Hm He)).
  destruct (NewDrushMessage_cases line)
    as [[He ->] | [[He ->] | [[He ->] | [[He ->] | [Hn ->]]]]].
  all: repeat split; intros H; try discriminate H; try assumption; try tauto.
  all: try (destruct H as [H | H]).
  all: try (exfalso; refine (X _ _ _ _ _ He H); [in_markers | in_markers | discriminate]).
  all: try (exfalso; refine (R _ _ He H); unfold recognizedMarkers; set_solver).
  all: try (exfalso; refine (R _ _ H Hn); unfold recognizedMarkers; set_solver).
Qed.

Ltac classify_line p :=
  unfold MessageSet.NewDrushMessage, Messages.NewDrushMessage, DrushMessageType_String;
  repeat first
    [ rewrite HasSuffix_app
    | rewrite (marker_exclusive p) by first [in_markers | discriminate] ];
  cbn iota; rewrite ?TrimSuffix_app; reflexivity.

(** A line that ends in [[error]], [[warning]] or [[ok]] is stored without
    the marker and without the white space around the rest, whatever the rest
    is (other markers included: one marker is removed, the last). *)
Theorem NewDrushMessage_marker_removed :
  (forall p, MessageSet.NewDrushMessage (p +:+ "[error]")
             = {| Message := strings.TrimSpace p; Type_ := DrushMessageError |})
  /\ (forall p, MessageSet.NewDrushMessage (p +:+ "[warning]")
                = {| Message := strings.TrimSpace p; Type_ := DrushMessageWarning |})
  /\ (forall p, MessageSet.NewDrushMessage (p +:+ "[ok]")
                = {| Message := strings.TrimSpace p; Type_ := DrushMessageOK |}).
Proof.
  split; [exact NewDrushMessage_error_line |].
  split; [exact NewDrushMessage_warning_line | exact NewDrushMessage_ok_line].
Qed.

(** The classifier of lines 222-242 knows [[success]] as well: lines that
    end in [[error]], [[warning]], [[ok]] or [[success]] get that type and lose
    the marker; a line that ends in [[notice]] is a warning that keeps it. *)
Theorem NewDrushMessage_success_marker_removed :
  (forall p, Messages.NewDrushMessage (p +:+ "[error]")
             = {| Message := strings.TrimSpace p; Type_ := DrushMessageError |})
  /\ (forall p, Messages.NewDrushMessage (p +:+ "[warning]")
                = {| Message := strings.TrimSpace p; Type_ := DrushMessageWarning |})
  /\ (forall p, Messages.NewDrushMessage (p +:+ "[ok]")
                = {| Message := strings.TrimSpace p; Type_ := DrushMessageOK |})
  /\ (forall p, Messages.NewDrushMessage (p +:+ "[success]")
                = {| Message := strings.TrimSpace p; Type_ := DrushMessageSuccess |})
  /\ (forall p, Messages.NewDrushMessage (p +:+ "[notice]")
                = {| Message := strings.TrimSpace (p +:+ "[notice]");
                     Type_ := DrushMessageWarning |}).
Proof.
  repeat split; intros p.
  - classify_line p.
  - classify_line p.
  - classify_line p.
  - classify_line p.
  - change (p +:+ "[notice]") with (p +:+ DrushMessageNotice).
    unfold Messages.NewDrushMessage, DrushMessageType_String.
    rewrite (marker_exclusive p DrushMessageNotice DrushMessageError)
      by first [in_markers | discriminate].
    pose proof (marker_exclusive p DrushMessageNotice DrushMessageWarning
                  ltac:(in_markers) ltac:(in_markers) ltac:(discriminate)) as W.
    rewrite W, HasSuffix_app. cbn iota.
    now rewrite (TrimSuffix_without _ _ W).
Qed.

(** The two classifiers differ on the lines that end in [[success]] and on
    no other line. *)
Theorem NewDrushMessage_revisions (line : string) :
  (~ endsIn line DrushMessageSuccess ->
   Messages.NewDrushMessage line = MessageSet.NewDrushMessage line)
  /\ (endsIn line DrushMessageSuccess ->
      Type_ (Messages.NewDrushMessage line) = DrushMessageSuccess
      /\ Type_ (MessageSet.NewDrushMessage line) = DrushMessageUnknown
      /\ Message (MessageSet.NewDrushMessage line) = strings.TrimSpace line).
Proof.
  split.
  - intros H. apply not_endsIn_HasSuffix in H.
    unfold Messages.NewDrushMessage, MessageSet.NewDrushMessage, DrushMessageType_String.
    now rewrite H.
  - intros [p ->].
    unfold Messages.NewDrushMessage, MessageSet.NewDrushMessage, DrushMessageType_String.
    rewrite !(marker_exclusive p DrushMessageSuccess) by first [in_markers | discriminate].
    unfold DrushMessageSuccess at 1. rewrite HasSuffix_app. cbn [Type_ Message].
    split; [reflexivity |]. split; [reflexivity |].
    now rewrite (TrimSuffix_without _ _
      (marker_exclusive p DrushMessageSuccess DrushMessageUnknown
         ltac:(in_markers) ltac:(in_markers) ltac:(discriminate))).
Qed.

(** ** The stored text *)

Lemma trimLeft_fixed (fuel : nat) (s : string) :
  strings.cutSpaceLeft s = None -> strings.trimLeft fuel s = s.
Proof. intros H. destruct fuel; simpl; [reflexivity | now rewrite H]. Qed.

Lemma trimRight_fixed (fuel : nat) (s : string) :
  strings.cutSpaceRight s = None -> strings.trimRight fuel s = s.
Proof. intros H. destruct fuel; simpl; [reflexivity | now rewrite H]. Qed.

(** Trimming twice is trimming once. *)
Lemma TrimSpace_idempotent (s : string) :
  strings.TrimSpace (strings.TrimSpace s) = strings.TrimSpace s.
Proof.
  destruct (TrimSpace_spec s) as (_ & L & R).
  unfold strings.TrimSpace at 1. unfold strings.TrimLeftSpace, strings.TrimRightSpace.
  rewrite (trimLeft_fixed _ _ L). now apply trimRight_fixed.
Qed.

Lemma TrimSuffix_prefix (s suffix : string) :
  exists r, s = strings.TrimSuffix s suffix +:+ r.
Proof.
  unfold strings.TrimSuffix. destruct (strings.HasSuffix s suffix) eqn:E.
  - exists suffix. now apply HasSuffix_inv.
  - exists "". now rewrite app_empty_r.
Qed.

Lemma trimmed_part_of (s suffix : string) :
  exists l r, s = l +:+ strings.TrimSpace (strings.TrimSuffix s suffix) +:+ r.
Proof.
  destruct (TrimSuffix_prefix s suffix) as [r0 E0].
  destruct (TrimSpace_spec (strings.TrimSuffix s suffix)) as ((l & r & _ & _ & E) & _).
  exists l, (r +:+ r0). rewrite E0 at 1. rewrite E at 1.
  now rewrite !app_assoc_s.
Qed.

(** Whatever the line, the text of its message neither starts nor ends with
    white space (trimming it again changes nothing), and it is a part of the
    line, so never longer than the line. Both classifiers. *)
Theorem NewDrushMessage_text_trimmed (line : string) :
  (strings.TrimSpace (Message (MessageSet.NewDrushMessage line))
   = Message (MessageSet.NewDrushMessage line)
   /\ strings.cutSpaceLeft (Message (MessageSet.NewDrushMessage line)) = None
   /\ strings.cutSpaceRight (Message (MessageSet.NewDrushMessage line)) = None
   /\ (exists l r, line = l +:+ Message (MessageSet.NewDrushMessage line) +:+ r)
   /\ strings.len (Message (MessageSet.NewDrushMessage line)) <= strings.len line)
  /\ (strings.TrimSpace (Message (Messages.NewDrushMessage line))
      = Message (Messages.NewDrushMessage line)
      /\ strings.cutSpaceLeft (Message (Messages.NewDrushMessage line)) = None
      /\ strings.cutSpaceRight (Message (Messages.NewDrushMessage line)) = None
      /\ (exists l r, line = l +:+ Message (Messages.NewDrushMessage line) +:+ r)
      /\ strings.len (Message (Messages.NewDrushMessage line)) <= strings.len line).
Proof.
  assert (G : forall suffix,
    strings.TrimSpace (strings.TrimSpace (strings.TrimSuffix line suffix))
    = strings.TrimSpace (strings.TrimSuffix line suffix)
    /\ strings.cutSpaceLeft (strings.TrimSpace (strings.TrimSuffix line suffix)) = None
    /\ strings.cutSpaceRight (strings.TrimSpace (strings.TrimSuffix line suffix)) = None
    /\ (exists l r, line = l +:+ strings.TrimSpace (strings.TrimSuffix line suffix) +:+ r)
    /\ strings.len (strings.TrimSpace (strings.TrimSuffix line suffix)) <= strings.len line).
  { intros suffix.
    destruct (TrimSpace_spec (strings.TrimSuffix line suffix)) as (_ & L & R).
    split; [apply TrimSpace_idempotent |]. split; [exact L |]. split; [exact R |].
    destruct (trimmed_part_of line suffix) as (l & r & E).
    split; [now exists l, r |].
    rewrite E at 2. rewrite !len_app. lia. }
  split; apply G.
Qed.

(** ** Message sets as they grow *)

Lemma rangeHasType_app (t : DrushMessageType) (l1 l2 : list DrushMessage) :
  rangeHasType t (l1 ++ l2) = rangeHasType t l1 || rangeHasType t l2.
Proof.
  induction l1 as [|m l1 IH]; simpl; [reflexivity |].
  now destruct (String.eqb (Type_ m) t).
Qed.

Lemma setHasType_append (t : DrushMessageType) (des : DrushMessageSet) (m : DrushMessage) :
  (if slice.is_nil (slice.append des m) then false
   else rangeHasType t (slice.elems (slice.append des m)))
  = (if slice.is_nil des then false else rangeHasType t (slice.elems des))
    || String.eqb (Type_ m) t.
Proof.
  destruct des as [l|]; simpl.
  - rewrite rangeHasType_app. simpl. now destruct (String.eqb (Type_ m) t).
  - now destruct (String.eqb (Type_ m) t).
Qed.

(** Appending a message turns a predicate on exactly when the message has
    the predicate's type, and never turns one off; appending to [nil] is
    appending to the empty set. *)
Theorem Has_predicates_append (des : DrushMessageSet) (m : DrushMessage) :
  HasErrors (slice.append des m) = HasErrors des || String.eqb (Type_ m) DrushMessageError
  /\ HasWarnings (slice.append des m)
     = HasWarnings des || String.eqb (Type_ m) DrushMessageWarning
  /\ HasNotices (slice.append des m)
     = HasNotices des || String.eqb (Type_ m) DrushMessageNotice
  /\ HasUnknowns (slice.append des m)
     = HasUnknowns des || String.eqb (Type_ m) DrushMessageUnknown.
Proof. repeat split; apply setHasType_append. Qed.

Lemma setHasType_perm (t : DrushMessageType) (des des' : DrushMessageSet) :
  slice.elems des ≡ₚ slice.elems des' ->
  (if slice.is_nil des then false else rangeHasType t (slice.elems des))
  = (if slice.is_nil des' then false else rangeHasType t (slice.elems des')).
Proof.
  intros P.
  pose proof (setHasType_spec t des) as S. pose proof (setHasType_spec t des') as S'.
  destruct (if slice.is_nil des then false else rangeHasType t (slice.elems des)) eqn:E.
  - symmetry. apply S'. destruct (proj1 S eq_refl) as (m & Hm & Ht).
    exists m. split; [now rewrite <- P | exact Ht].
  - destruct (if slice.is_nil des' then false else rangeHasType t (slice.elems des')) eqn:E';
      [| reflexivity].
    destruct (proj1 S' eq_refl) as (m & Hm & Ht).
    assert (false = true) as C; [| discriminate C].
    apply S. exists m. split; [now rewrite P | exact Ht].
Qed.

(** The predicates do not look at the order of the messages, nor at whether
    an empty set is [nil]. *)
Theorem Has_predicates_order (des des' : DrushMessageSet) :
  slice.elems des ≡ₚ slice.elems des' ->
  HasErrors des = HasErrors des' /\ HasWarnings des = HasWarnings des'
  /\ HasNotices des = HasNotices des' /\ HasUnknowns des = HasUnknowns des'.
Proof. intros P. repeat split; now apply setHasType_perm. Qed.

Lemma Has_predicates_order_witness :
  HasErrors (Some [ {| Message := "a"; Type_ := DrushMessageError |};
                    {| Message := "b"; Type_ := DrushMessageWarning |} ])
  = HasErrors (Some [ {| Message := "b"; Type_ := DrushMessageWarning |};
                      {| Message := "a"; Type_ := DrushMessageError |} ]).
Proof.
  apply (Has_predicates_order
           (Some [ {| Message := "a"; Type_ := DrushMessageError |};
                   {| Message := "b"; Type_ := DrushMessageWarning |} ])
           (Some [ {| Message := "b"; Type_ := DrushMessageWarning |};
                   {| Message := "a"; Type_ := DrushMessageError |} ])).
  simpl. apply Permutation_swap.
Defined.

(** *** The error string of a set *)

Lemma render_snoc (sep : string) (l : list DrushMessage) (m : DrushMessage) :
  render sep (l ++ [m]) = render sep l +:+ DrushMessage_Error m +:+ sep.
Proof. unfold render. now rewrite fold_left_app. Qed.

Lemma render_length (sep : string) (l : list DrushMessage) :
  (2 + strings.len sep) * length l <= strings.len (render sep l).
Proof.
  induction l as [|m l IH] using rev_ind; [simpl; lia |].
  rewrite render_snoc, length_app, !len_app.
  unfold DrushMessage_Error. rewrite !len_app.
  change (strings.len ": ") with 2. simpl length. lia.
Qed.

Lemma render_empty_iff (sep : string) (l : list DrushMessage) :
  render sep l = "" <-> l = [].
Proof.
  split; [| now intros ->].
  intros H. pose proof (render_length sep l) as L. rewrite H in L.
  destruct l; [reflexivity | simpl in L; lia].
Qed.

(** The error string of a set is empty exactly when the set has no message
    ([nil] or empty); appending a message appends its own error string and the
    separator, [". "] in the revision of lines 338-546 and [" "] in that of
    lines 108-337. *)
Theorem Error_string :
  (forall des, MessageSet.Error des = "" <-> slice.len des = 0)
  /\ (forall des m,
        MessageSet.Error (slice.append des m)
        = MessageSet.Error des +:+ DrushMessage_Error m +:+ ". ")
  /\ (forall des, Messages.Error des = "" <-> slice.len des = 0)
  /\ (forall des m,
        Messages.Error (slice.append des m)
        = Messages.Error des +:+ DrushMessage_Error m +:+ " ").
Proof.
  assert (E1 : forall des, MessageSet.Error des = render ". " (slice.elems des))
    by (now intros [l|]).
  assert (E2 : forall des, Messages.Error des = render " " (slice.elems des))
    by (now intros [l|]).
  repeat split.
  - rewrite E1. intros H. apply render_empty_iff in H. unfold slice.len. now rewrite H.
  - rewrite E1. intros H. apply render_empty_iff. now apply length_zero_iff_nil.
  - intros des m. rewrite !E1. apply render_snoc.
  - rewrite E2. intros H. apply render_empty_iff in H. unfold slice.len. now rewrite H.
  - rewrite E2. intros H. apply render_empty_iff. now apply length_zero_iff_nil.
  - intros des m. rewrite !E2. apply render_snoc.
Qed.

(** ** More on the two slices of [Run] *)

Section RunFacts.

Variable NewDrushMessage : string -> DrushMessage.
Variable isOK : DrushMessage -> bool.


Lemma drain_errset_split (c : Cmd) (k : nat) :
  exists before after,
    slice.elems (snd (drain NewDrushMessage isOK c k))
    = before ++ waitMessage NewDrushMessage c ++ after
    /\ before ++ after = List.filter (notOK isOK) (map NewDrushMessage (stderr c)).
Proof.
  rewrite drain_errset. eexists _, _. split; [reflexivity |].
  rewrite <- List.filter_app, <- map_app. now rewrite take_drop.
Qed.






(** [errset] is empty exactly when [cmd.Wait] gave no error and every line
    went to [messages] *)
Lemma drain_errset_empty_iff (c : Cmd) (k : nat) :
  slice.len (snd (drain NewDrushMessage isOK c k)) = 0
  <-> Wait c = None /\ forall line, line ∈ stderr c -> isOK (NewDrushMessage line) = true.
Proof.
  unfold slice.len. destruct (drain_errset_split c k) as (b & a & -> & E).
  rewrite !length_app. unfold waitMessage. split.
  - intros H. destruct (Wait c); [simpl in H; lia |]. split; [reflexivity |].
    assert (b ++ a = []) as N by (apply length_zero_iff_nil; rewrite length_app; simpl in H; lia).
    rewrite N in E. intros line Hl.
    destruct (isOK (NewDrushMessage line)) eqn:K; [reflexivity |].
    assert (In (NewDrushMessage line)
              (List.filter (notOK isOK) (map NewDrushMessage (stderr c)))) as HI.
    { apply List.filter_In. split; [apply List.in_map; now apply list_elem_of_In |].
      unfold notOK. now rewrite K. }
    rewrite <- E in HI. destruct HI.
  - intros [-> H]. simpl.
    assert (b ++ a = []) as N.
    { rewrite E. destruct (List.filter (notOK isOK) (map NewDrushMessage (stderr c)))
        as [|m l] eqn:F; [reflexivity |].
      assert (In m (List.filter (notOK isOK) (map NewDrushMessage (stderr c)))) as Hm
        by (rewrite F; now left).
      apply List.filter_In in Hm as [Hm K]. apply List.in_map_iff in Hm as (line & <- & Hl).
      unfold notOK in K. rewrite (H line) in K; [discriminate | now apply list_elem_of_In]. }
    apply (f_equal (@length _)) in N. rewrite length_app in N. simpl in N. lia.
Qed.

End RunFacts.

Lemma drain_errset_elem (NewDrushMessage : string -> DrushMessage)
    (isOK : DrushMessage -> bool) (c : Cmd) (k : nat) (m : DrushMessage) :
  m ∈ slice.elems (snd (drain NewDrushMessage isOK c k))
  <-> (exists line, line ∈ stderr c /\ m = NewDrushMessage line /\ isOK m = false)
      \/ (exists err, Wait c = Some err /\ m = NewDrushMessage err).
Proof.
  destruct (drain_errset_split NewDrushMessage isOK c k) as (b & a & -> & E).
  assert (F : m ∈ b ++ a
              <-> exists line, line ∈ stderr c /\ m = NewDrushMessage line /\ isOK m = false).
  { rewrite E, list_elem_of_In, List.filter_In, List.in_map_iff. unfold notOK. split.
    - intros [(line & <- & Hl) K]. exists line.
      split; [now apply list_elem_of_In |]. split; [reflexivity | now apply negb_true_iff].
    - intros (line & Hl & -> & K). split; [| now apply negb_true_iff].
      exists line. split; [reflexivity | now apply list_elem_of_In]. }
  assert (W : m ∈ waitMessage NewDrushMessage c
              <-> exists err, Wait c = Some err /\ m = NewDrushMessage err).
  { unfold waitMessage. destruct (Wait c) as [err|].
    - rewrite list_elem_of_singleton. split.
      + intros ->. now exists err.
      + now intros (err' & [= <-] & ->).
    - split; [intros H; now apply elem_of_nil in H | now intros (err' & H & _)]. }
  rewrite <- F, <- W, !elem_of_app. tauto.
Qed.

Lemma NewDrushMessage_error_iff (line : string) :
  Type_ (MessageSet.NewDrushMessage line) = DrushMessageError
  <-> endsIn line DrushMessageError.
Proof.
  rewrite endsIn_HasSuffix.
  unfold MessageSet.NewDrushMessage, DrushMessageType_String.
  destruct (strings.HasSuffix line DrushMessageError); [tauto |].
  repeat (match goal with |- context [if ?b then _ else _] => destruct b end);
    cbn [Type_]; split; discriminate.
Qed.

Lemma MessageSet_error_not_ok (m : DrushMessage) :
  Type_ m = DrushMessageError -> MessageSet.isOK m = false.
Proof. unfold MessageSet.isOK. now intros ->. Qed.

(** [errset] of lines 361-416 has a message of type [[error]] exactly when
    a stderr line or the text of the [cmd.Wait] error ends in [[error]] *)
Lemma MessageSet_HasErrors_iff (d : Cmd) (k : nat) :
  HasErrors (snd (MessageSet.accumulated d k)) = true
  <-> (exists line, line ∈ stderr d /\ endsIn line DrushMessageError)
      \/ (exists err, Wait d = Some err /\ endsIn err DrushMessageError).
Proof.
  unfold HasErrors. rewrite setHasType_spec. unfold MessageSet.accumulated. split.
  - intros (m & Hm & Ht). apply drain_errset_elem in Hm as [(line & Hl & -> & _) | (err & W & ->)].
    + left. exists line. split; [exact Hl | now apply NewDrushMessage_error_iff].
    + right. exists err. split; [exact W | now apply NewDrushMessage_error_iff].
  - intros [(line & Hl & He) | (err & W & He)]; apply NewDrushMessage_error_iff in He.
    + exists (MessageSet.NewDrushMessage line). split; [| exact He].
      apply drain_errset_elem. left. exists line.
      split; [exact Hl |]. split; [reflexivity | now apply MessageSet_error_not_ok].
    + exists (MessageSet.NewDrushMessage err). split; [| exact He].
      apply drain_errset_elem. right. now exists err.
Qed.

(** ** [Run], from outside *)

Lemma Run_transport_failure_witness :
  ~ started (mkCmd None (Some "pipe: too many open files") None "" [] None)
  /\ exists err,
       MessageSet.Run (mkCmd None (Some "pipe: too many open files") None "" [] None) 0
       = ("", slice.nil, Some (ExecError err)).
Proof.
  assert (H : ~ started (mkCmd None (Some "pipe: too many open files") None "" [] None))
    by (intros (_ & H & _); discriminate H).
  split; [exact H |].
  destruct (Run_transport_failure _ 0 H) as (err & _ & E & _). now exists err.
Defined.


(** When the stderr goroutine has handled every line before the main
    goroutine appends, the message of the [cmd.Wait] error is the last of
    [errset]. *)
Theorem Run_drained_order (d : Cmd) (k : nat) :
  length (stderr d) <= k ->
  slice.elems (snd (MessageSet.accumulated d k))
  = List.filter (notOK MessageSet.isOK) (map MessageSet.NewDrushMessage (stderr d))
    ++ waitMessage MessageSet.NewDrushMessage d
  /\ slice.elems (snd (Messages.accumulated d k))
     = List.filter (notOK Messages.isOK) (map Messages.NewDrushMessage (stderr d))
       ++ waitMessage Messages.NewDrushMessage d.
Proof.
  intros H. unfold MessageSet.accumulated, Messages.accumulated.
  split; now apply drain_errset_drained.
Qed.

Lemma Run_drained_order_witness :
  length (stderr sampleCmd) <= 5
  /\ slice.elems (snd (MessageSet.accumulated sampleCmd 5))
     = List.filter (notOK MessageSet.isOK) (map MessageSet.NewDrushMessage (stderr sampleCmd))
       ++ waitMessage MessageSet.NewDrushMessage sampleCmd.
Proof.
  split; [simpl; lia |]. apply (Run_drained_order sampleCmd 5). simpl. lia.
Defined.

Ltac by_marker H :=
  let p := fresh "p" in
  apply endsIn_HasSuffix in H as [p ->];
  rewrite !(marker_exclusive p) by first [in_markers | discriminate];
  cbn; tauto.


Lemma Messages_isOK_false_iff (line : string) :
  Messages.isOK (Messages.NewDrushMessage line) = false
  <-> ~ endsIn line DrushMessageOK /\ ~ endsIn line DrushMessageSuccess.
Proof.
  rewrite !not_endsIn_HasSuffix.
  unfold Messages.isOK, Messages.NewDrushMessage, DrushMessageType_String.
  destruct (strings.HasSuffix line DrushMessageError) eqn:A; [by_marker A |].
  destruct (strings.HasSuffix line DrushMessageWarning) eqn:B; [by_marker B |].
  destruct (strings.HasSuffix line DrushMessageNotice) eqn:C; [by_marker C |].
  destruct (strings.HasSuffix line DrushMessageOK) eqn:D;
    [cbn; split; [discriminate | intros [? _]; discriminate] |].
  destruct (strings.HasSuffix line DrushMessageSuccess) eqn:F; cbn;
    [split; [discriminate | intros [_ ?]; discriminate] | tauto].
Qed.



(** [Run] of lines 149-204, for a process that started: no error is
    returned exactly when [cmd.Wait] gave none and every stderr line ends in
    [[ok]] or [[success]]. One warning, one line without marker, or a failed
    exit is enough for an error. *)
Theorem Messages_Run_nil_error_iff (d : Cmd) (k : nat) :
  started d ->
  (errs_of (Messages.Run d k) = None
   <-> Wait d = None
       /\ forall line, line ∈ stderr d ->
            endsIn line DrushMessageOK \/ endsIn line DrushMessageSuccess).
Proof.
  intros Hs. rewrite (Messages_Run_started d k Hs). unfold errs_of. cbn [snd].
  unfold Messages.accumulated. rewrite drain_errset_not_nil. cbn [negb andb].
  pose proof (drain_errset_empty_iff Messages.NewDrushMessage Messages.isOK d k) as E.
  assert (K : forall line, Messages.isOK (Messages.NewDrushMessage line) = true
                           <-> endsIn line DrushMessageOK \/ endsIn line DrushMessageSuccess).
  { intros line. pose proof (Messages_isOK_false_iff line) as F.
    rewrite !not_endsIn_HasSuffix in F. rewrite !endsIn_HasSuffix.
    destruct (Messages.isOK (Messages.NewDrushMessage line));
      destruct (strings.HasSuffix line DrushMessageOK);
      destruct (strings.HasSuffix line DrushMessageSuccess); intuition congruence. }
  destruct (Nat.ltb_spec 0 (slice.len (snd (drain Messages.NewDrushMessage Messages.isOK d k))))
    as [L | L].
  - split; [discriminate |]. intros [W H].
    assert (slice.len (snd (drain Messages.NewDrushMessage Messages.isOK d k)) = 0) as Z.
    { apply E. split; [exact W |]. intros line Hl. apply K, H, Hl. }
    lia.
  - split; [| reflexivity]. intros _.
    destruct (proj1 E ltac:(lia)) as [W H]. split; [exact W |].
    intros line Hl. apply K, H, Hl.
Qed.

Lemma Messages_Run_nil_error_iff_witness :
  started warningCmd /\ errs_of (Messages.Run warningCmd 1) <> None.
Proof.
  assert (Hs : started warningCmd) by (repeat split).
  split; [exact Hs |].
  intros H. apply (Messages_Run_nil_error_iff warningCmd 1 Hs) in H as [_ H].
  specialize (H _ (list_elem_of_here _ _)).
  rewrite !endsIn_HasSuffix in H. vm_compute in H. destruct H as [H | H]; discriminate H.
Defined.



(** The error [Run] returns for a process that started is never a plain
    error: it is the message set [errset], which is not [nil] and has at least
    one message; in the revision of lines 361-416 it has a message of type
    [[error]]. *)
Theorem Run_error_is_set (d : Cmd) (k : nat) :
  started d ->
  (forall e, errs_of (MessageSet.Run d k) = Some e ->
     e = SetError (snd (MessageSet.accumulated d k))
     /\ slice.is_nil (snd (MessageSet.accumulated d k)) = false
     /\ 0 < slice.len (snd (MessageSet.accumulated d k))
     /\ HasErrors (snd (MessageSet.accumulated d k)) = true)
  /\ (forall e, errs_of (Messages.Run d k) = Some e ->
        e = SetError (snd (Messages.accumulated d k))
        /\ slice.is_nil (snd (Messages.accumulated d k)) = false
        /\ 0 < slice.len (snd (Messages.accumulated d k))).
Proof.
  intros Hs. split; intros e.
  - rewrite (MessageSet_Run_started d k Hs). unfold errs_of. cbn [snd].
    destruct (HasErrors (snd (MessageSet.accumulated d k))) eqn:E; [| discriminate].
    intros [= <-]. split; [reflexivity |].
    split; [apply drain_errset_not_nil |]. split; [| reflexivity].
    apply setHasType_spec in E as (m & Hm & _). unfold slice.len.
    destruct (slice.elems (snd (MessageSet.accumulated d k)));
      [now apply elem_of_nil in Hm | simpl; lia].
  - rewrite (Messages_Run_started d k Hs). unfold errs_of. cbn [snd].
    unfold Messages.accumulated. rewrite drain_errset_not_nil. cbn [negb andb].
    destruct (Nat.ltb_spec 0 (slice.len (snd (drain Messages.NewDrushMessage Messages.isOK d k))))
      as [L | L]; [| discriminate].
    intros [= <-]. split; [reflexivity |]. split; [reflexivity | exact L].
Qed.

Lemma Run_error_is_set_witness :
  started sampleCmd
  /\ forall e, errs_of (MessageSet.Run sampleCmd 0) = Some e ->
       e = SetError (snd (MessageSet.accumulated sampleCmd 0)).
Proof.
  assert (Hs : started sampleCmd) by (repeat split).
  split; [exact Hs |].
  intros e H. now apply (Run_error_is_set sampleCmd 0 Hs).
Defined.




(** The schedules are all there is to the interleaving of the two
    goroutines: stepping through the scanner loop and past [cmd.Wait] in any
    order ends, when [wg.Wait()] returns, with the slices of some schedule,
    and every schedule is such an order. *)
Theorem Run_interleavings (d : Cmd) (acc : accumulators) :
  ((exists st, rtc (step MessageSet.NewDrushMessage MessageSet.isOK d) (initial d) st
               /\ joined st /\ slices st = acc)
   <-> exists k, k <= length (stderr d) /\ acc = MessageSet.accumulated d k)
  /\ ((exists st, rtc (step Messages.NewDrushMessage Messages.isOK d) (initial d) st
                  /\ joined st /\ slices st = acc)
      <-> exists k, k <= length (stderr d) /\ acc = Messages.accumulated d k).
Proof. split; apply steps_drain. Qed.

(** ** The settings, key by key *)

Lemma HasValue_index (s : Settings) (key : string) :
  HasValue s key = true <-> exists v, index s key = Some v.
Proof.
  unfold HasValue. destruct (index s key) as [v|].
  - split; [now exists v | reflexivity].
  - split; [discriminate | now intros [v H]].
Qed.

(** A key that is not there ([HasValue] false, as for every key of the
    [nil] map) reads as the zero value with each accessor, and as [nil] with
    [GetArray], which returns. *)
Theorem accessors_absent (s : Settings) (key : string) :
  HasValue s key = false ->
  GetString s key = "" /\ GetInt s key = 0%Z /\ GetBool s key = false
  /\ GetFloat s key = 0%Z /\ GetAssocArray s key = None
  /\ GetArray s key = Returns slice.nil.
Proof.
  unfold HasValue, GetString, GetInt, GetBool, GetFloat, GetAssocArray, GetArray.
  destruct (index s key); [discriminate | now repeat split].
Qed.

Lemma accessors_absent_witness :
  HasValue None "hash_salt" = false
  /\ GetString None "hash_salt" = "" /\ GetArray None "hash_salt" = Returns slice.nil.
Proof.
  split; [reflexivity |].
  destruct (accessors_absent None "hash_salt" eq_refl) as (A & _ & _ & _ & _ & B).
  now split.
Defined.

(** A result that is not the zero value tells that the key is there and
    holds a value of the accessor's type, equal to the result. *)
Theorem accessors_nonzero (s : Settings) (key : string) :
  (GetString s key <> "" -> index s key = Some (VString (GetString s key)))
  /\ (GetInt s key <> 0%Z -> index s key = Some (VInt (GetInt s key)))
  /\ (GetBool s key = true -> index s key = Some (VBool true))
  /\ (GetFloat s key <> 0%Z -> index s key = Some (VFloat64 (GetFloat s key)))
  /\ (GetAssocArray s key <> None -> index s key = Some (VSettings (GetAssocArray s key)))
  /\ (forall array, GetArray s key = Returns array -> array <> slice.nil ->
        exists arrayval, index s key = Some (VSlice arrayval)).
Proof.
  unfold GetString, GetInt, GetBool, GetFloat, GetAssocArray, GetArray.
  destruct (index s key) as [[]|]; repeat split; intros; try congruence; eauto.
Qed.

Lemma index_insert (m : gmap string value) (key key' : string) (v : value) :
  index (Some (<[key := v]> m)) key' = if decide (key = key') then Some v else index (Some m) key'.
Proof. unfold index. apply lookup_insert. Qed.

(** the strings of a [[]interface{}], in order *)
Lemma rangeStrings_Some (arrayval : list value) (array : list string) :
  rangeStrings (Some array) arrayval
  = Some (array ++ omap (fun v => match v with VString x => Some x | _ => None end) arrayval).
Proof.
  revert array. induction arrayval as [|v rest IH]; intros array; simpl.
  - now rewrite app_nil_r.
  - destruct v; try apply IH. unfold slice.append. cbn [slice.elems].
    rewrite IH. now rewrite <- app_assoc.
Qed.

(** What was stored under a key is what the accessor of its type reads
    there, a list of strings stored as [[]interface{}] comes back from
    [GetArray] as it was, and storing under one key changes no reading of
    another key. *)
Theorem accessors_insert (m : gmap string value) (key : string) :
  (forall x, GetString (Some (<[key := VString x]> m)) key = x)
  /\ (forall x, GetInt (Some (<[key := VInt x]> m)) key = x)
  /\ (forall x, GetBool (Some (<[key := VBool x]> m)) key = x)
  /\ (forall x, GetFloat (Some (<[key := VFloat64 x]> m)) key = x)
  /\ (forall x, GetAssocArray (Some (<[key := VSettings x]> m)) key = x)
  /\ (forall l, GetArray (Some (<[key := VSlice (VString <$> l)]> m)) key = Returns (Some l))
  /\ (forall v key', key <> key' ->
        index (Some (<[key := v]> m)) key' = index (Some m) key'
        /\ HasValue (Some (<[key := v]> m)) key' = HasValue (Some m) key'
        /\ GetString (Some (<[key := v]> m)) key' = GetString (Some m) key'
        /\ GetInt (Some (<[key := v]> m)) key' = GetInt (Some m) key'
        /\ GetBool (Some (<[key := v]> m)) key' = GetBool (Some m) key'
        /\ GetFloat (Some (<[key := v]> m)) key' = GetFloat (Some m) key'
        /\ GetAssocArray (Some (<[key := v]> m)) key' = GetAssocArray (Some m) key'
        /\ GetArray (Some (<[key := v]> m)) key' = GetArray (Some m) key').
Proof.
  unfold GetString, GetInt, GetBool, GetFloat, GetAssocArray, GetArray, HasValue.
  repeat split; intros; rewrite index_insert; try case_decide; try congruence.
  f_equal. rewrite rangeStrings_Some. f_equal. simpl.
  induction l as [|x l IH]; [reflexivity |].
  change (x :: omap (fun v => match v with VString x => Some x | _ => None end)
                 (VString <$> l) = x :: l).
  now rewrite IH.
Qed.

(** [GetArray] returns exactly when the key is absent or holds a
    [[]interface{}], and panics on every other value; what it returns for a
    [[]interface{}] is never [nil] and holds the strings among the elements,
    in their order, the other elements being passed over. *)
Theorem GetArray_spec (s : Settings) (key : string) :
  (GetArray s key = Panics
   <-> exists v, index s key = Some v /\ forall arrayval, v <> VSlice arrayval)
  /\ (forall arrayval, index s key = Some (VSlice arrayval) ->
        GetArray s key
        = Returns (Some (omap (fun v => match v with VString x => Some x | _ => None end)
                           arrayval)))
  /\ (index s key = None -> GetArray s key = Returns slice.nil).
Proof.
  split; [apply GetArray_panics |]. unfold GetArray. split.
  - intros arrayval ->. now rewrite rangeStrings_Some.
  - now intros ->.
Qed.

(** Settings that hold what [json.Unmarshal] stores never hold an [int] or
    a [Settings]: on them [GetInt] is [0] and [GetAssocArray] is [nil] for
    every key, also for a key that holds a number or an object. *)
Theorem accessors_of_decoded (s : Settings) (key : string) :
  (forall v, index s key = Some v -> ofJSON v) ->
  GetInt s key = 0%Z /\ GetAssocArray s key = None.
Proof.
  unfold GetInt, GetAssocArray. intros H.
  destruct (index s key) as [v|]; [| now split].
  specialize (H v eq_refl). destruct v; simpl in H; try contradiction; now split.
Qed.

(** the number 3306 and an empty object, as [json.Unmarshal] stores them *)
Lemma accessors_of_decoded_witness :
  GetInt (Some (<["port" := VFloat64 4659488385956577280%Z]> ∅)) "port" = 0%Z
  /\ GetAssocArray (Some (<["databases" := VMap (Some ∅)]> ∅)) "databases" = None.
Proof.
  split.
  - apply (accessors_of_decoded (Some (<["port" := VFloat64 4659488385956577280%Z]> ∅)) "port").
    intros v H. vm_compute in H. injection H as <-. exact I.
  - apply (accessors_of_decoded (Some (<["databases" := VMap (Some ∅)]> ∅)) "databases").
    intros v H. vm_compute in H. injection H as <-. exact I.
Defined.

(** ** The data-source string, the command line *)

Lemma eqb_nonempty (s : string) : s <> "" -> String.eqb s "" = false.
Proof. intros H. now apply String.eqb_neq. Qed.

(** [Open] writes the fields one after the other with nothing escaped: a
    password reads the same as a colon and more in the user name. *)
Theorem Open_password_in_username (db : Database) :
  Password db <> "" ->
  Open db
  = Open {| Database_ := Database_ db; Username := Username db +:+ ":" +:+ Password db;
            Password := ""; Prefix := Prefix db; Host := Host db; Port := Port db;
            Namespace := Namespace db; Driver := Driver db |}.
Proof.
  intros H. unfold Open. cbn [Database_ Username Password Host Port Driver].
  rewrite (eqb_nonempty _ H). reflexivity.
Qed.

Lemma Open_password_in_username_witness :
  Open (mkDatabase "drupal" "root" "secret" "" "mysql" "3306" "" "mysql")
  = Open (mkDatabase "drupal" "root:secret" "" "" "mysql" "3306" "" "mysql").
Proof.
  apply (Open_password_in_username
           (mkDatabase "drupal" "root" "secret" "" "mysql" "3306" "" "mysql")).
  discriminate.
Defined.

(** The command line is [drush], the command, [--yes], [--nocolor] and then
    the caller's arguments as they are, so no argument of the caller comes
    before the two flags; the environment is the inherited one with the two
    column settings after it; and [NewDrush] of the first revision builds the
    same command as [buildCommand] of the later ones. *)
Theorem buildCommand_line (environ : list string) (directory command : string)
    (arguments : list string) :
  let cmd := buildCommand environ (NewDrush directory command arguments) in
  name cmd = "drush"
  /\ take 3 (arg cmd) = [command; "--yes"; "--nocolor"]
  /\ drop 3 (arg cmd) = arguments
  /\ length (arg cmd) = 3 + length arguments
  /\ Dir cmd = directory
  /\ take (length environ) (Env cmd) = environ
  /\ drop (length environ) (Env cmd) = ["DRUSH_COLUMNS=10000"; "COLUMNS=10000"]
  /\ snd (Keyed.NewDrush environ directory command arguments) = cmd.
Proof.
  cbn. repeat split.
  - now rewrite take_app_length.
  - now rewrite drop_app_length.
Qed.

(** ** The first revision of the stderr loop *)

Lemma sets_eta (s : Keyed.sets) :
  {| Keyed.errset := Keyed.errset s; Keyed.warnset := Keyed.warnset s |} = s.
Proof. now destruct s. Qed.

(** In the first revision a line that ends in none of [[error]],
    [[warning]], [[notice]] is reported to neither set: lines that end in
    [[ok]] and lines without marker are dropped. *)
Theorem Keyed_unmarked_dropped (i : nat) (line : string) (s : Keyed.sets) :
  ~ endsIn line "[error]" -> ~ endsIn line "[warning]" -> ~ endsIn line "[notice]" ->
  Keyed.scanLine i line s = s.
Proof.
  rewrite !not_endsIn_HasSuffix. intros E W N.
  unfold Keyed.scanLine. now rewrite E, W, N.
Qed.

Lemma Keyed_unmarked_dropped_witness :
  Keyed.scanLine 1 "Cache rebuilt. [ok]" {| Keyed.errset := []; Keyed.warnset := [] |}
  = {| Keyed.errset := []; Keyed.warnset := [] |}.
Proof.
  apply (Keyed_unmarked_dropped 1 "Cache rebuilt. [ok]");
    apply not_endsIn_HasSuffix; reflexivity.
Defined.

(** the branch of [[error]] alone touches [errset] *)
Lemma Keyed_scanLine_errset (i : nat) (line : string) (s : Keyed.sets) :
  Keyed.errset (Keyed.scanLine i line s)
  = Keyed.errset s
    ++ (if strings.HasSuffix line "[error]"
        then [(Keyed.Itoa i, strings.TrimSpace (strings.TrimSuffix line "[error]"))]
        else []).
Proof.
  unfold Keyed.scanLine.
  destruct (strings.HasSuffix line "[error]");
    repeat (match goal with |- context [if ?b then _ else _] => destruct b end);
    cbn [Keyed.errset]; now rewrite ?app_nil_r.
Qed.

(** The first revision removes each of its three markers: a line that ends
    in [[error]] goes to [errset] under the number of the line, with the text
    the later classifier stores; a line that ends in [[warning]] goes to
    [warnset]; a line that ends in [[notice]] goes to [warnset] too, and
    without its marker. *)
Theorem Keyed_marker_removed (i : nat) (p : string) (s : Keyed.sets) :
  Keyed.errset (Keyed.scanLine i (p +:+ "[error]") s)
  = Keyed.errset s
    ++ [(Keyed.Itoa i, Message (MessageSet.NewDrushMessage (p +:+ "[error]")))]
  /\ (exists rest,
        Keyed.scanLine i (p +:+ "[warning]") s
        = {| Keyed.errset := Keyed.errset s;
             Keyed.warnset := Keyed.warnset s ++ (Keyed.Itoa i, strings.TrimSpace p) :: rest |})
  /\ Keyed.scanLine i (p +:+ "[notice]") s
     = {| Keyed.errset := Keyed.errset s;
          Keyed.warnset := Keyed.warnset s ++ [(Keyed.Itoa i, strings.TrimSpace p)] |}.
Proof.
  split; [| split].
  - rewrite Keyed_scanLine_errset, HasSuffix_app, TrimSuffix_app.
    now rewrite NewDrushMessage_error_line.
  - unfold Keyed.scanLine.
    pose proof (marker_exclusive p DrushMessageWarning DrushMessageError
                  ltac:(in_markers) ltac:(in_markers) ltac:(discriminate)) as X.
    unfold DrushMessageWarning, DrushMessageError in X.
    rewrite X, HasSuffix_app, TrimSuffix_app.
    destruct (strings.HasSuffix (strings.TrimSpace p) "[notice]");
      cbn [Keyed.errset Keyed.warnset].
    + eexists. rewrite <- app_assoc. reflexivity.
    + now exists [].
  - unfold Keyed.scanLine.
    pose proof (marker_exclusive p DrushMessageNotice DrushMessageError
                  ltac:(in_markers) ltac:(in_markers) ltac:(discriminate)) as X.
    pose proof (marker_exclusive p DrushMessageNotice DrushMessageWarning
                  ltac:(in_markers) ltac:(in_markers) ltac:(discriminate)) as Y.
    unfold DrushMessageNotice, DrushMessageWarning, DrushMessageError in X, Y.
    now rewrite X, Y, HasSuffix_app, TrimSuffix_app.
Qed.

(** The three tests of the first revision come one after the other on the
    text as trimmed so far: a line that ends in [[error]] and has [[warning]]
    before it is reported to both sets, under the same key. *)
Theorem Keyed_reported_twice (i : nat) (p q : string) (s : Keyed.sets) :
  strings.TrimSpace p = q +:+ "[warning]" ->
  exists rest,
    Keyed.scanLine i (p +:+ "[error]") s
    = {| Keyed.errset := Keyed.errset s ++ [(Keyed.Itoa i, q +:+ "[warning]")];
         Keyed.warnset := Keyed.warnset s ++ (Keyed.Itoa i, strings.TrimSpace q) :: rest |}.
Proof.
  intros H. unfold Keyed.scanLine.
  rewrite HasSuffix_app, TrimSuffix_app, H, HasSuffix_app, TrimSuffix_app.
  destruct (strings.HasSuffix (strings.TrimSpace q) "[notice]");
    cbn [Keyed.errset Keyed.warnset].
  - eexists. rewrite <- app_assoc. reflexivity.
  - now exists [].
Qed.

Lemma Keyed_reported_twice_witness :
  exists rest,
    Keyed.scanLine 2 ("Deprecated hook. [warning] " +:+ "[error]")
      {| Keyed.errset := []; Keyed.warnset := [] |}
    = {| Keyed.errset := [] ++ [(Keyed.Itoa 2, "Deprecated hook. " +:+ "[warning]")];
         Keyed.warnset := [] ++ (Keyed.Itoa 2, strings.TrimSpace "Deprecated hook. ") :: rest |}.
Proof.
  apply (Keyed_reported_twice 2 "Deprecated hook. [warning] " "Deprecated hook. "
           {| Keyed.errset := []; Keyed.warnset := [] |}).
  reflexivity.
Defined.

(** the report of line number [i] to [errset], if it is one *)
Lemma Keyed_scanLines_errset (n : nat) (lines : list string) (s : Keyed.sets) :
  Keyed.errset (Keyed.scanLines n lines s)
  = Keyed.errset s
    ++ omap id (imap (fun i line =>
                   if strings.HasSuffix line "[error]"
                   then Some (Keyed.Itoa (S (n + i)),
                              strings.TrimSpace (strings.TrimSuffix line "[error]"))
                   else None) lines).
Proof.
  revert n s. induction lines as [|line lines IH]; intros n s.
  - simpl. now rewrite app_nil_r.
  - cbn [Keyed.scanLines]. rewrite IH, Keyed_scanLine_errset, imap_cons.
    rewrite Nat.add_0_r, <- app_assoc. f_equal.
    assert (E : imap ((fun i line0 =>
                  if strings.HasSuffix line0 "[error]"
                  then Some (Keyed.Itoa (S (n + i)),
                             strings.TrimSpace (strings.TrimSuffix line0 "[error]"))
                  else None) ∘ S) lines
                = imap (fun i line0 =>
                  if strings.HasSuffix line0 "[error]"
                  then Some (Keyed.Itoa (S (S n + i)),
                             strings.TrimSpace (strings.TrimSuffix line0 "[error]"))
                  else None) lines).
    { apply imap_ext. intros i x _. simpl. now rewrite Nat.add_succ_r. }
    rewrite E. now destruct (strings.HasSuffix line "[error]").
Qed.

(** After the loop of the first revision, [errset] has been given one
    report for each stderr line that ends in [[error]] and no other, in the
    order of the lines, each under the decimal number of its line, counted
    from 1, and with the marker and the white space around the rest removed. *)
Theorem Keyed_errset_lines (lines : list string) :
  Keyed.errset (Keyed.stderrLoop lines)
  = omap id (imap (fun i line =>
               if strings.HasSuffix line "[error]"
               then Some (Keyed.Itoa (S i),
                          strings.TrimSpace (strings.TrimSuffix line "[error]"))
               else None) lines)
  /\ (forall i j : nat, Keyed.Itoa i = Keyed.Itoa j -> i = j).
Proof.
  split.
  - unfold Keyed.stderrLoop. now rewrite Keyed_scanLines_errset.
  - intros i j H. unfold Keyed.Itoa in H. now apply (inj pretty) in H.
Qed.

(** The stdout loop of the first revision returns the lines with the white
    space at both ends removed, one for one and in order; [nil] when there is
    no line. *)
Theorem Keyed_stdout_lines (lines : list string) :
  slice.elems (Keyed.stdoutLoop lines) = map strings.TrimSpace lines
  /\ (Keyed.stdoutLoop lines = slice.nil <-> lines = []).
Proof.
  unfold Keyed.stdoutLoop.
  assert (G : forall (output : slice.t string),
    fold_left (fun output line => slice.append output (strings.TrimSpace line)) lines output
    = match lines with
      | [] => output
      | _ => Some (slice.elems output ++ map strings.TrimSpace lines)
      end).
  { induction lines as [|line lines IH]; intros output; [reflexivity |].
    cbn [fold_left]. rewrite IH. destruct lines as [|line' lines].
    - reflexivity.
    - unfold slice.append. cbn [slice.elems]. now rewrite <- app_assoc. }
  rewrite (G slice.nil). destruct lines as [|line lines].
  - repeat split; reflexivity.
  - split; [reflexivity | split; discriminate].
Qed.

(** ** Fetching from the site *)

Section FetchFacts.

Variable environ : list string.
Variable system : execCmd -> Cmd.
Variable php : string -> string + string.
Variable Unmarshal_Status : string -> Status + string.
Variable Unmarshal_Settings : string -> Settings + string.
Variable Unmarshal_Database : string -> Database + string.
Variable Run : Cmd -> nat -> RunResult.

Lemma GetStatus_errs (s : Site) (k : nat) (e : error) :
  errs_of (Site_Drush environ system Run s "status" ["--format=json"] k) = Some e ->
  GetStatus environ system Unmarshal_Status Run s k = inr (OfRun e).
Proof.
  unfold GetStatus, errs_of.
  destruct (Site_Drush environ system Run s "status" ["--format=json"] k) as [[output m] errs].
  cbn [snd]. now intros ->.
Qed.

Lemma GetStatus_no_errs (s : Site) (k : nat) :
  errs_of (Site_Drush environ system Run s "status" ["--format=json"] k) = None ->
  GetStatus environ system Unmarshal_Status Run s k
  = match Unmarshal_Status
            (output_of (Site_Drush environ system Run s "status" ["--format=json"] k)) with
    | inl status => inl status
    | inr err => inr (OfUnmarshal err)
    end.
Proof.
  unfold GetStatus, errs_of, output_of.
  destruct (Site_Drush environ system Run s "status" ["--format=json"] k) as [[output m] errs].
  cbn [fst snd]. intros ->. now destruct (Unmarshal_Status output).
Qed.

Lemma fetch_status_error (s : Site) (k : nat) (err : fetchError) :
  GetStatus environ system Unmarshal_Status Run s k = inr err ->
  GetSettings environ system php Unmarshal_Status Unmarshal_Settings Run s k = inr err
  /\ GetDefaultDatabase environ system php Unmarshal_Status Unmarshal_Database Run s k
     = inr err.
Proof. unfold GetSettings, GetDefaultDatabase. now intros ->. Qed.

Lemma fetch_success (s : Site) (k : nat) :
  (forall settings,
     GetSettings environ system php Unmarshal_Status Unmarshal_Settings Run s k = inl settings ->
     exists status out,
       GetStatus environ system Unmarshal_Status Run s k = inl status
       /\ php (settingsCode status) = inl out
       /\ Unmarshal_Settings out = inl settings)
  /\ (forall database,
        GetDefaultDatabase environ system php Unmarshal_Status Unmarshal_Database Run s k
        = inl database ->
        exists status out,
          GetStatus environ system Unmarshal_Status Run s k = inl status
          /\ php (databaseCode status) = inl out
          /\ Unmarshal_Database out = inl database).
Proof.
  unfold GetSettings, GetDefaultDatabase.
  destruct (GetStatus environ system Unmarshal_Status Run s k) as [status | err];
    [| split; discriminate].
  split.
  - intros settings H. destruct (php (settingsCode status)) as [out | e] eqn:P; [| discriminate].
    destruct (Unmarshal_Settings out) as [x | e] eqn:U; [| discriminate].
    injection H as <-. now exists status, out.
  - intros database H. destruct (php (databaseCode status)) as [out | e] eqn:P; [| discriminate].
    destruct (Unmarshal_Database out) as [x | e] eqn:U; [| discriminate].
    injection H as <-. now exists status, out.
Qed.

End FetchFacts.

(** When [drush status] gives an error, [GetStatus] returns it as it is,
    and so do [GetSettings] and [GetDefaultDatabase], whatever PHP would
    print; they return a result only when the status was fetched, the script
    built from its [Root] and [Site] ran, and its output decoded. *)
Theorem fetch_needs_status (environ : list string) (system : execCmd -> Cmd)
    (php : string -> string + string)
    (Unmarshal_Status : string -> Status + string)
    (Unmarshal_Settings : string -> Settings + string)
    (Unmarshal_Database : string -> Database + string)
    (Run : Cmd -> nat -> RunResult) (s : Site) (k : nat) :
  (forall e,
     errs_of (Site_Drush environ system Run s "status" ["--format=json"] k) = Some e ->
     GetStatus environ system Unmarshal_Status Run s k = inr (OfRun e)
     /\ GetSettings environ system php Unmarshal_Status Unmarshal_Settings Run s k
        = inr (OfRun e)
     /\ GetDefaultDatabase environ system php Unmarshal_Status Unmarshal_Database Run s k
        = inr (OfRun e))
  /\ (forall settings,
        GetSettings environ system php Unmarshal_Status Unmarshal_Settings Run s k
        = inl settings ->
        exists status out,
          GetStatus environ system Unmarshal_Status Run s k = inl status
          /\ php (settingsCode status) = inl out
          /\ Unmarshal_Settings out = inl settings)
  /\ (forall database,
        GetDefaultDatabase environ system php Unmarshal_Status Unmarshal_Database Run s k
        = inl database ->
        exists status out,
          GetStatus environ system Unmarshal_Status Run s k = inl status
          /\ php (databaseCode status) = inl out
          /\ Unmarshal_Database out = inl database).
Proof.
  split; [| apply fetch_success].
  intros e H. pose proof (GetStatus_errs environ system Unmarshal_Status Run s k e H) as G.
  split; [exact G |]. now apply fetch_status_error.
Qed.

(** With [Run] of lines 149-204 (the site of type [string]), one stderr
    line of [drush status] that ends in neither [[ok]] nor [[success]], a
    warning for one, makes [GetStatus] fail with the message set.  With [Run]
    of lines 361-416 (the site with a [Directory]), [GetStatus] goes on to
    decode the output as long as nothing ends in [[error]], a failed exit
    included. *)
Theorem GetStatus_on_warnings (environ : list string) (system : execCmd -> Cmd)
    (Unmarshal_Status : string -> Status + string) (s : Site) (k : nat) :
  let d := system (buildCommand environ (NewDrush s "status" ["--format=json"])) in
  started d ->
  ((exists line, line ∈ stderr d
                 /\ ~ endsIn line DrushMessageOK /\ ~ endsIn line DrushMessageSuccess) ->
   GetStatus environ system Unmarshal_Status Messages.Run s k
   = inr (OfRun (SetError (snd (Messages.accumulated d k)))))
  /\ ((forall line, line ∈ stderr d -> ~ endsIn line DrushMessageError) ->
      (forall err, Wait d = Some err -> ~ endsIn err DrushMessageError) ->
      GetStatus environ system Unmarshal_Status MessageSet.Run s k
      = match Unmarshal_Status (stdout d) with
        | inl status => inl status
        | inr err => inr (OfUnmarshal err)
        end).
Proof.
  intros d Hs. split.
  - intros (line & Hl & Hn). apply GetStatus_errs.
    unfold Site_Drush, Site_String. fold d.
    rewrite (Messages_Run_started d k Hs). unfold errs_of. cbn [snd].
    unfold Messages.accumulated. rewrite drain_errset_not_nil. cbn [negb andb].
    assert (M : Messages.NewDrushMessage line
                ∈ slice.elems (snd (drain Messages.NewDrushMessage Messages.isOK d k))).
    { apply drain_errset_elem. left. exists line. split; [exact Hl |].
      split; [reflexivity | now apply Messages_isOK_false_iff]. }
    unfold slice.len.
    destruct (slice.elems (snd (drain Messages.NewDrushMessage Messages.isOK d k)));
      [now apply elem_of_nil in M | reflexivity].
  - intros H1 H2.
    assert (E : errs_of (Site_Drush environ system MessageSet.Run s "status"
                           ["--format=json"] k) = None).
    { unfold Site_Drush, Site_String. fold d.
      rewrite (MessageSet_Run_started d k Hs). unfold errs_of. cbn [snd].
      pose proof (MessageSet_HasErrors_iff d k) as I.
      destruct (HasErrors (snd (MessageSet.accumulated d k))); [| reflexivity].
      destruct (proj1 I eq_refl) as [(line & Hl & He) | (err & W & He)].
      - destruct (H1 line Hl He).
      - destruct (H2 err W He). }
    rewrite (GetStatus_no_errs environ system Unmarshal_Status MessageSet.Run s k E).
    unfold Site_Drush, Site_String. fold d.
    now rewrite (MessageSet_Run_started d k Hs).
Qed.

Lemma GetStatus_on_warnings_witness :
  started warningCmd
  /\ GetStatus [] (fun _ => warningCmd) (fun _ => inr "unexpected end of JSON input")
       Messages.Run "/var/www/drupalsite" 1
     = inr (OfRun (SetError (snd (Messages.accumulated warningCmd 1))))
  /\ GetStatus [] (fun _ => warningCmd) (fun _ => inr "unexpected end of JSON input")
       MessageSet.Run "/var/www/drupalsite" 1
     = inr (OfUnmarshal "unexpected end of JSON input").
Proof.
  assert (Hs : started warningCmd) by (repeat split).
  split; [exact Hs |].
  destruct (GetStatus_on_warnings [] (fun _ => warningCmd)
              (fun _ => inr "unexpected end of JSON input") "/var/www/drupalsite" 1 Hs)
    as [A B].
  split.
  - apply A. eexists. split; [apply list_elem_of_here |].
    split; apply not_endsIn_HasSuffix; reflexivity.
  - apply B.
    + intros line H. apply list_elem_of_singleton in H as ->.
      apply not_endsIn_HasSuffix. reflexivity.
    + intros err H. discriminate H.
Defined.
